(** * BountyCardStore (src/store/bountyCard.ts): a shallow embedding

    The store is a MobX view-model: a handful of mutable fields, two
    asynchronous methods that talk to the backend through [fetch], and a few
    synchronous actions that keep a feature filter in [sessionStorage].

    - Mutable fields are threaded explicitly ([Store], [World]).
    - An [async] method is a tree of type [Async]: its leaves are the ways
      the promise settles, its nodes are the effects of the method body, and
      the nodes that await a [fetch] are the points where the method is
      suspended and the event loop may run something else.
    - The platform ([TribesURL] from the config module, [JSON.parse],
      [JSON.stringify]) is an interface, [Platform]. *)

From Stdlib Require Import ZArith Ascii String.
From stdpp Require Import base option list strings gmap pretty.

Open Scope string_scope.
Open Scope list_scope.

(** ** Values thrown and promise settlement *)

(** What a [throw] carries.  [error instanceof Error] is all the store ever
    asks of such a value, besides its [message]. *)
Inductive JsThrown : Type :=
| ErrorObject (name message : string)
| NonError (description : string).

Definition instanceof_Error (e : JsThrown) : bool :=
  match e with
  | ErrorObject _ _ => true
  | NonError _ => false
  end.

Definition message (e : JsThrown) : string :=
  match e with
  | ErrorObject _ m => m
  | NonError _ => ""
  end.

(** [new Error(msg)] *)
Definition new_Error (msg : string) : JsThrown := ErrorObject "Error" msg.

(** A completed evaluation: a value, or a thrown value (for a promise:
    fulfilled or rejected). *)
Inductive Completion (A : Type) : Type :=
| Normal (a : A)
| Abrupt (e : JsThrown).
Arguments Normal {A} a.
Arguments Abrupt {A} e.

(** ** JSON values, as [JSON.parse] produces them *)

#[warnings="-register-all"]
Inductive JsValue : Type :=
| JNull
| JBool (b : bool)
| JNumber (mantissa exponent10 : Z)
| JString (s : string)
| JArray (elements : list JsValue)
| JObject (members : list (string * JsValue)).

(** [Array.isArray(v) ? v.length : 0] *)
Definition Array_isArray (v : JsValue) : bool :=
  match v with
  | JArray _ => true
  | _ => false
  end.

Definition array_length (v : JsValue) : nat :=
  match v with
  | JArray l => length l
  | _ => 0
  end.

(** Truthiness of a string: only the empty string is falsy. *)
Definition truthy (s : string) : bool := negb (String.eqb s "").

(** Truthiness of [string | undefined]. *)
Definition truthy_opt (s : option string) : bool :=
  match s with
  | Some s => truthy s
  | None => false
  end.

(** [Array.prototype.includes] on a [string[]]. *)
Definition includes (l : list string) (x : string) : bool := bool_decide (x ∈ l).

(** ** Data model *)

(** Modelled from the spec: the interface module [./interface] declaring
    [BountyCard] is not part of the sources.  The spec's data model gives a
    card an identifier, a status out of five, an optional [features]
    reference carrying an identifying key ([uuid], the only field of it the
    store reads), and [pow], a non-negative proof count. *)
Inductive BountyCardStatus : Type :=
| TODO | IN_PROGRESS | IN_REVIEW | COMPLETED | PAID.

Record Feature : Type := { uuid : string }.

Record BountyCard : Type := {
  id : string;
  status : BountyCardStatus;
  features : option Feature;
  pow : option nat
}.

(** [{ ...bounty, pow: n }] *)
Definition with_pow (bounty : BountyCard) (n : nat) : BountyCard :=
  {| id := id bounty; status := status bounty; features := features bounty;
     pow := Some n |}.

(** [{ ...bounty }] *)
Definition spread (bounty : BountyCard) : BountyCard :=
  {| id := id bounty; status := status bounty; features := features bounty;
     pow := pow bounty |}.

(** [card.features?.uuid] *)
Definition features_uuid (card : BountyCard) : option string :=
  uuid <$> features card.

Record FilterState : Type := {
  fs_selectedFeatures : list string;
  fs_timestamp : Z
}.

(** The fields of a [BountyCardStore] instance. *)
Record Store : Type := {
  bountyCards : list BountyCard;
  currentWorkspaceId : string;
  loading : bool;
  error : option string;
  selectedFeatures : list string
}.

Definition set_bountyCards (v : list BountyCard) (s : Store) : Store :=
  {| bountyCards := v; currentWorkspaceId := currentWorkspaceId s;
     loading := loading s; error := error s;
     selectedFeatures := selectedFeatures s |}.

Definition set_currentWorkspaceId (v : string) (s : Store) : Store :=
  {| bountyCards := bountyCards s; currentWorkspaceId := v;
     loading := loading s; error := error s;
     selectedFeatures := selectedFeatures s |}.

Definition set_loading (v : bool) (s : Store) : Store :=
  {| bountyCards := bountyCards s; currentWorkspaceId := currentWorkspaceId s;
     loading := v; error := error s;
     selectedFeatures := selectedFeatures s |}.

Definition set_error (v : option string) (s : Store) : Store :=
  {| bountyCards := bountyCards s; currentWorkspaceId := currentWorkspaceId s;
     loading := loading s; error := v;
     selectedFeatures := selectedFeatures s |}.

Definition set_selectedFeatures (v : list string) (s : Store) : Store :=
  {| bountyCards := bountyCards s; currentWorkspaceId := currentWorkspaceId s;
     loading := loading s; error := error s;
     selectedFeatures := v |}.

(** Modelled from the spec: [uiStore] (module [./ui]) is not part of the
    sources; the store reads [uiStore.meInfo?.tribe_jwt], the bearer token
    of the signed-in user, and nothing else of it. *)
Record MeInfo : Type := { tribe_jwt : string }.

(** Everything the store's methods read or write: the instance itself, the
    signed-in user, the session storage, and the clock behind [Date.now()].
    What [console.error] prints is not part of it. *)
Record World : Type := {
  this : Store;
  uiStore_meInfo : option MeInfo;
  sessionStorage : gmap string string;
  Date_now : Z
}.

Definition set_this (v : Store) (w : World) : World :=
  {| this := v; uiStore_meInfo := uiStore_meInfo w;
     sessionStorage := sessionStorage w; Date_now := Date_now w |}.

Definition set_sessionStorage (v : gmap string string) (w : World) : World :=
  {| this := this w; uiStore_meInfo := uiStore_meInfo w;
     sessionStorage := v; Date_now := Date_now w |}.

Definition set_uiStore_meInfo (v : option MeInfo) (w : World) : World :=
  {| this := this w; uiStore_meInfo := v;
     sessionStorage := sessionStorage w; Date_now := Date_now w |}.

(** ** The network *)

Record Request : Type := {
  url : string;
  method : string;
  headers : list (string * string)
}.

(** A [Response] whose body, read with [json()], has the type the caller
    casts it to; reading the body may itself reject. *)
Record Response (B : Type) : Type := {
  ok : bool;
  statusText : string;
  json : Completion B
}.
Arguments ok {B} _.
Arguments statusText {B} _.
Arguments json {B} _.

(** How [await fetch(...)] settles. *)
Definition FetchOutcome (B : Type) : Type := Completion (Response B).

(** ** Asynchronous methods *)

(** The body of an [async] method, effect by effect.  [Read] is a read of
    the surrounding state in the current turn, [RunInAction] a MobX action
    on the fields of the store.  The two fetch nodes are [await fetch(...)]
    at the two places where the store calls it: the continuation receives
    the outcome, with the body typed as the call site casts it
    ([BountyCard[] | null] for the card list, anything for the proofs). *)

Inductive Async (A : Type) : Type :=
| Ret (a : A)
| Throw (e : JsThrown)
| Read (k : World -> Async A)
| RunInAction (f : Store -> Store) (k : Async A)
| ConsoleError (line : string) (k : Async A)
| FetchBountyCards (req : Request)
    (k : FetchOutcome (option (list BountyCard)) -> Async A)
| FetchProofs (req : Request) (k : FetchOutcome JsValue -> Async A).
Arguments Ret {A} a.
Arguments Throw {A} e.
Arguments Read {A} k.
Arguments RunInAction {A} f k.
Arguments ConsoleError {A} line k.
Arguments FetchBountyCards {A} req k.
Arguments FetchProofs {A} req k.

Fixpoint bind {A B : Type} (m : Async A) (f : A -> Async B) : Async B :=
  match m with
  | Ret a => f a
  | Throw e => Throw e
  | Read k => Read (fun w => bind (k w) f)
  | RunInAction g k => RunInAction g (bind k f)
  | ConsoleError line k => ConsoleError line (bind k f)
  | FetchBountyCards req k => FetchBountyCards req (fun r => bind (k r) f)
  | FetchProofs req k => FetchProofs req (fun r => bind (k r) f)
  end.

Declare Scope async_scope.
Delimit Scope async_scope with async.
Notation "x <- m ;; k" := (bind m (fun x => k))
  (at level 100, m at next level, right associativity) : async_scope.
Notation "m ;;; k" := (bind m (fun _ => k))
  (at level 100, right associativity) : async_scope.

(** [try { body } catch (error) { handler error }] *)
Fixpoint try_catch {A : Type} (body : Async A) (handler : JsThrown -> Async A)
  : Async A :=
  match body with
  | Ret a => Ret a
  | Throw e => handler e
  | Read k => Read (fun w => try_catch (k w) handler)
  | RunInAction g k => RunInAction g (try_catch k handler)
  | ConsoleError line k => ConsoleError line (try_catch k handler)
  | FetchBountyCards req k =>
      FetchBountyCards req (fun r => try_catch (k r) handler)
  | FetchProofs req k => FetchProofs req (fun r => try_catch (k r) handler)
  end.

(** [try { body } finally { final }], for a [final] that completes
    normally: the completion of [body] is kept. *)
Fixpoint try_finally {A : Type} (body : Async A) (final : Async unit)
  : Async A :=
  match body with
  | Ret a => bind final (fun _ => Ret a)
  | Throw e => bind final (fun _ => Throw e)
  | Read k => Read (fun w => try_finally (k w) final)
  | RunInAction g k => RunInAction g (try_finally k final)
  | ConsoleError line k => ConsoleError line (try_finally k final)
  | FetchBountyCards req k =>
      FetchBountyCards req (fun r => try_finally (k r) final)
  | FetchProofs req k => FetchProofs req (fun r => try_finally (k r) final)
  end.

(** [runInAction(() => { ... })] as a statement. *)
Definition runInAction (f : Store -> Store) : Async unit :=
  RunInAction f (Ret tt).

(** [await p] for a promise that is already settled. *)
Definition await {A : Type} (c : Completion A) : Async A :=
  match c with
  | Normal a => Ret a
  | Abrupt e => Throw e
  end.

(** [await Promise.all(items.map(task))].  The tasks are awaited one after
    the other in array order, which is the order in which [map] starts them
    and the order of the resulting array.  The tasks the store passes read
    and write no field of the store, so what each settles with does not
    depend on how their awaits interleave; the first rejection in array
    order rejects the whole. *)
Fixpoint Promise_all_map {A B : Type} (task : A -> Async B) (items : list A)
  : Async (list B) :=
  match items with
  | [] => Ret []
  | x :: rest =>
      bind (task x) (fun y =>
      bind (Promise_all_map task rest) (fun ys => Ret (y :: ys)))
  end.

(** ** Running a method against a network *)

(** The backend and the transport, as the store meets them: the outcome of
    the [n]-th [fetch] of a run, which may depend on the request. *)
Record Network : Type := {
  bountyCards_reply : nat -> Request -> FetchOutcome (option (list BountyCard));
  proofs_reply : nat -> Request -> FetchOutcome JsValue
}.

(** A method run until its promise settles: how it settled, the world it
    leaves, the requests it issued in order, and the store as the rest of
    the application could see it at each point where the method was
    suspended on a [fetch]. *)
Record Run (A : Type) : Type := {
  settled : Completion A;
  final : World;
  fetched : list Request;
  observed : list Store
}.
Arguments settled {A} _.
Arguments final {A} _.
Arguments fetched {A} _.
Arguments observed {A} _.

Definition suspended_on {A : Type} (req : Request) (s : Store) (r : Run A)
  : Run A :=
  {| settled := settled r; final := final r;
     fetched := req :: fetched r; observed := s :: observed r |}.

Fixpoint run {A : Type} (net : Network) (n : nat) (m : Async A) (w : World)
  : Run A :=
  match m with
  | Ret a =>
      {| settled := Normal a; final := w; fetched := []; observed := [] |}
  | Throw e =>
      {| settled := Abrupt e; final := w; fetched := []; observed := [] |}
  | Read k => run net n (k w) w
  | RunInAction f k => run net n k (set_this (f (this w)) w)
  | ConsoleError _ k => run net n k w
  | FetchBountyCards req k =>
      suspended_on req (this w)
        (run net (S n) (k (bountyCards_reply net n req)) w)
  | FetchProofs req k =>
      suspended_on req (this w)
        (run net (S n) (k (proofs_reply net n req)) w)
  end.

(** ** The event loop *)

(** Where a method stands once its synchronous stretch is over: settled, or
    waiting for a response with the rest of its body as continuation. *)
Inductive Suspended (A : Type) : Type :=
| Settled (c : Completion A)
| AwaitingBountyCards (req : Request)
    (k : FetchOutcome (option (list BountyCard)) -> Async A)
| AwaitingProofs (req : Request) (k : FetchOutcome JsValue -> Async A).
Arguments Settled {A} c.
Arguments AwaitingBountyCards {A} req k.
Arguments AwaitingProofs {A} req k.

(** Run [m] up to its next [await fetch(...)]: one uninterrupted turn of
    the event loop. *)
Fixpoint advance {A : Type} (m : Async A) (w : World) : World * Suspended A :=
  match m with
  | Ret a => (w, Settled (Normal a))
  | Throw e => (w, Settled (Abrupt e))
  | Read k => advance (k w) w
  | RunInAction f k => advance k (set_this (f (this w)) w)
  | ConsoleError _ k => advance k w
  | FetchBountyCards req k => (w, AwaitingBountyCards req k)
  | FetchProofs req k => (w, AwaitingProofs req k)
  end.

(** The response to a waiting method arrives: its next turn. *)
Definition deliver_bountyCards {A : Type} (p : Suspended A)
  (reply : FetchOutcome (option (list BountyCard))) (w : World)
  : World * Suspended A :=
  match p with
  | AwaitingBountyCards _ k => advance (k reply) w
  | _ => (w, p)
  end.

Definition deliver_proofs {A : Type} (p : Suspended A)
  (reply : FetchOutcome JsValue) (w : World) : World * Suspended A :=
  match p with
  | AwaitingProofs _ k => advance (k reply) w
  | _ => (w, p)
  end.

(** ** The platform *)

(** [TribesURL] comes from the [config] module, which is not part of the
    sources; [JSON.parse] and [JSON.stringify] are the engine's.  The store
    stringifies one shape only, [{ selectedFeatures, timestamp }]. *)
Class Platform : Type := {
  TribesURL : string;
  JSON_parse : string -> Completion JsValue;
  JSON_stringify : FilterState -> string
}.

(** ** BountyCardStore *)

Section BountyCardStore.
Context {engine : Platform}.

(** [{ method: 'GET', headers: { 'x-jwt': jwt, 'Content-Type': ... } }] *)
Definition GET (url jwt : string) : Request :=
  {| url := url; method := "GET";
     headers := [("x-jwt", jwt); ("Content-Type", "application/json")] |}.

Definition bountyCardsUrl (workspaceId : string) : string :=
  TribesURL ++ "/gobounties/bounty-cards?workspace_uuid=" ++ workspaceId.

Definition proofsUrl (bounty : BountyCard) : string :=
  TribesURL ++ "/gobounties/" ++ id bounty ++ "/proofs".

(** The callback mapped over the cards, lines 61-85. *)
Definition bountyWithProofs (jwt : string) (bounty : BountyCard)
  : Async BountyCard :=
  try_catch
    (proofsResponse <-
       FetchProofs (GET (proofsUrl bounty) jwt) await ;;
     if negb (ok proofsResponse) then Ret (with_pow bounty 0)
     else
       proofs <- await (json proofsResponse) ;;
       Ret (with_pow bounty
              (if Array_isArray proofs then array_length proofs else 0)))%async
    (fun _ =>
       ConsoleError ("Error fetching proofs for bounty " ++ id bounty ++ ":")
         (Ret (with_pow bounty 0))).

Definition loadWorkspaceBounties : Async unit :=
  Read (fun w =>
  let jwt := tribe_jwt <$> uiStore_meInfo w in
  if negb (truthy (currentWorkspaceId (this w))) || negb (truthy_opt jwt)
  then
    (runInAction (set_error (Some "Missing workspace ID or authentication")) ;;;
     Ret tt)%async
  else
    let jwt := default "" jwt in
    try_finally
      (try_catch
         (runInAction (fun s => set_error None (set_loading true s)) ;;;
          Read (fun w =>
          let url := bountyCardsUrl (currentWorkspaceId (this w)) in
          response <- FetchBountyCards (GET url jwt) await ;;
          if negb (ok response)
          then Throw (new_Error
                        ("Failed to load bounties: " ++ statusText response))
          else
            data <- await (json response) ;;
            bountyCardsWithProofs <-
              Promise_all_map (bountyWithProofs jwt) (default [] data) ;;
            runInAction (set_bountyCards (map spread bountyCardsWithProofs))))%async
         (fun error =>
            ConsoleError "Error loading bounties:"
              (runInAction
                 (set_error
                    (Some (if instanceof_Error error then message error
                           else "An unknown error occurred"))))))
      (runInAction (set_loading false))).

Definition switchWorkspace (newWorkspaceId : string) : Async unit :=
  Read (fun w =>
  if String.eqb (currentWorkspaceId (this w)) newWorkspaceId then Ret tt
  else
    (runInAction (fun s =>
       set_bountyCards [] (set_currentWorkspaceId newWorkspaceId s)) ;;;
     loadWorkspaceBounties)%async).

(** *** Filter persistence *)

Definition bountyFilterState : string := "bountyFilterState".

Definition saveFilterState (w : World) : World :=
  set_sessionStorage
    (<[bountyFilterState :=
         JSON_stringify
           {| fs_selectedFeatures := selectedFeatures (this w);
              fs_timestamp := Date_now w |}]> (sessionStorage w)) w.

Fixpoint member (name : string) (members : list (string * JsValue))
  : option JsValue :=
  match members with
  | [] => None
  | (k, v) :: rest =>
      match member name rest with
      | Some v' => Some v'
      | None => if String.eqb k name then Some v else None
      end
  end.

(** [state.selectedFeatures] for whatever [JSON.parse] returned: reading a
    property of [null] throws a [TypeError]; an object yields its member of
    that name (the last one, if the text repeated the key) or [undefined];
    no other JSON value has a property of that name. *)
Definition state_selectedFeatures (state : JsValue)
  : Completion (option JsValue) :=
  match state with
  | JNull =>
      Abrupt (ErrorObject "TypeError"
                "Cannot read properties of null (reading 'selectedFeatures')")
  | JObject members =>
      Normal (member "selectedFeatures" members)
  | _ => Normal None
  end.

(** The values of type [string[]]. *)
Definition as_string (v : JsValue) : option string :=
  match v with
  | JString s => Some s
  | _ => None
  end.

Definition as_string_array (v : option JsValue) : option (list string) :=
  match v with
  | Some (JArray l) => mapM as_string l
  | _ => None
  end.

(** How a synchronous method of the store ends.  [OffType] is a normal
    return that has put into [selectedFeatures] a value that is not a
    [string[]]: the cast [as FilterState] is not checked at run time, and
    past that point the declared types, which this embedding follows, no
    longer describe the store. *)
Inductive SyncResult : Type :=
| Returns (w : World)
| Throws (e : JsThrown)
| OffType (v : option JsValue).

Definition restoreFilterState (w : World) : SyncResult :=
  match sessionStorage w !! bountyFilterState with
  | None => Returns w
  | Some saved =>
      if truthy saved then
        match JSON_parse saved with
        | Abrupt e => Throws e
        | Normal state =>
            match state_selectedFeatures state with
            | Abrupt e => Throws e
            | Normal v =>
                match as_string_array v with
                | Some l => Returns (set_this (set_selectedFeatures l (this w)) w)
                | None => OffType v
                end
            end
        end
      else Returns w
  end.

Definition toggleFeature (featureId : string) (w : World) : World :=
  let sel := selectedFeatures (this w) in
  let w' :=
    if includes sel featureId
    then set_this (set_selectedFeatures
                     (filter (fun id => id ≠ featureId) sel) (this w)) w
    else set_this (set_selectedFeatures (sel ++ [featureId]) (this w)) w in
  saveFilterState w'.

Definition clearAllFilters (w : World) : World :=
  let w1 := set_this (set_selectedFeatures [] (this w)) w in
  let w2 := set_sessionStorage (delete bountyFilterState (sessionStorage w1)) w1 in
  saveFilterState w2.

(** *** Derived views *)

Definition filteredBountyCards (s : Store) : list BountyCard :=
  if Nat.eqb (length (selectedFeatures s)) 0 then bountyCards s
  else
    List.filter (fun card =>
      let hasNoFeature := negb (truthy_opt (features_uuid card)) in
      let isNoFeatureSelected := includes (selectedFeatures s) "no-feature" in
      let hasSelectedFeature :=
        match features_uuid card with
        | Some u => truthy u && includes (selectedFeatures s) u
        | None => false
        end in
      if hasNoFeature && isNoFeatureSelected then true
      else if hasSelectedFeature then true
      else false) (bountyCards s).


(** The feature identifier of a card, when it has one.  The getters test
    [!card.features?.uuid]: a card whose [features] reference is missing,
    or carries an empty [uuid], has none. *)
Definition feature_identifier (card : BountyCard) : option string :=
  match features_uuid card with
  | Some u => if truthy u then Some u else None
  | None => None
  end.

(** The inclusion rule of the feature filter in the words of the spec: (a)
    the card has no feature and the sentinel is selected, or (b) its
    feature identifier is selected. *)
Definition included (selected : list string) (card : BountyCard) : Prop :=
  (feature_identifier card = None ∧ "no-feature" ∈ selected) ∨
  (∃ u, feature_identifier card = Some u ∧ u ∈ selected).

#[global] Instance included_dec selected card : Decision (included selected card).
Proof.
  unfold included. destruct (feature_identifier card) as [u|].
  - destruct (decide (u ∈ selected)) as [Hin|Hout].
    + left. right. by exists u.
    + right. intros [[Hnone _] | (u' & Hsome & Hin)]; [done|].
      by simplify_eq.
  - destruct (decide ("no-feature" ∈ selected)) as [Hin|Hout].
    + left. by left.
    + right. intros [[_ Hin] | (u' & Hsome & _)]; done.
Defined.

(** *** Construction *)

(** The field initialisers and the first line of the constructor. *)
Definition new_fields (workspaceId : string) : Store :=
  {| bountyCards := []; currentWorkspaceId := workspaceId; loading := false;
     error := None; selectedFeatures := [] |}.

(** [new BountyCardStore(workspaceId)] in an environment [env] (whose
    [this] is irrelevant): the load is started and not awaited, so what
    runs of it inside the constructor is its first turn; then the filter is
    restored.  The result pairs how the constructor ended with the load
    left in flight. *)
Definition constructor (workspaceId : string) (env : World)
  : SyncResult * Suspended unit :=
  let w0 := set_this (new_fields workspaceId) env in
  let '(w1, inflight) := advance loadWorkspaceBounties w0 in
  (restoreFilterState w1, inflight).

End BountyCardStore.

(** ** A concrete platform: the JSON text format

    [JSON_text.parse] follows the JSON grammar (ECMA-404); as [JSON.parse]
    does, it throws a [SyntaxError] on any other text.  Strings are byte
    strings here: a JavaScript string stands as its UTF-8 encoding, so a
    [\uXXXX] escape is decoded to the UTF-8 bytes of its code point, two
    escapes forming a surrogate pair to those of the pair's code point.  A
    number is kept as written, mantissa and decimal exponent, without
    rounding to a double. *)
Module JSON_text.

Definition dquote : ascii := "034"%char.
Definition backslash : ascii := "092"%char.

Definition is_whitespace (c : ascii) : bool :=
  let n := nat_of_ascii c in
  Nat.eqb n 32 || Nat.eqb n 9 || Nat.eqb n 10 || Nat.eqb n 13.

Fixpoint skip_whitespace (s : string) : string :=
  match s with
  | String c rest => if is_whitespace c then skip_whitespace rest else s
  | EmptyString => s
  end.

Definition digit_value (c : ascii) : option nat :=
  let n := nat_of_ascii c in
  if Nat.leb 48 n && Nat.leb n 57 then Some (n - 48) else None.

Definition hex_value (c : ascii) : option N :=
  let n := nat_of_ascii c in
  if Nat.leb 48 n && Nat.leb n 57 then Some (N.of_nat (n - 48))
  else if Nat.leb 97 n && Nat.leb n 102 then Some (N.of_nat (n - 87))
  else if Nat.leb 65 n && Nat.leb n 70 then Some (N.of_nat (n - 55))
  else None.

Definition hex4 (h1 h2 h3 h4 : ascii) : option N :=
  match hex_value h1, hex_value h2, hex_value h3, hex_value h4 with
  | Some a, Some b, Some c, Some d => Some (((a * 16 + b) * 16 + c) * 16 + d)%N
  | _, _, _, _ => None
  end.

(** The character a two-character escape stands for. *)
Definition simple_escape (e : ascii) : option ascii :=
  let n := nat_of_ascii e in
  if Nat.eqb n 34 then Some dquote
  else if Nat.eqb n 92 then Some backslash
  else if Nat.eqb n 47 then Some "/"%char
  else if Nat.eqb n 98 then Some "008"%char
  else if Nat.eqb n 102 then Some "012"%char
  else if Nat.eqb n 110 then Some "010"%char
  else if Nat.eqb n 114 then Some "013"%char
  else if Nat.eqb n 116 then Some "009"%char
  else None.

(** The content of a string literal, one item per source character or
    escape. *)
Inductive StringItem : Type :=
| RawByte (c : ascii)
| CodeUnit (u : N).

Definition cons_item (i : StringItem) (r : option (list StringItem * string))
  : option (list StringItem * string) :=
  match r with
  | Some (items, rest) => Some (i :: items, rest)
  | None => None
  end.

(** After the opening quote: the items up to the closing quote, and the
    text that follows it. *)
Fixpoint string_items (s : string) : option (list StringItem * string) :=
  match s with
  | EmptyString => None
  | String c rest =>
      if Ascii.eqb c dquote then Some ([], rest)
      else if Ascii.eqb c backslash then
        match rest with
        | String e rest2 =>
            if Ascii.eqb e "u"%char then
              match rest2 with
              | String h1 (String h2 (String h3 (String h4 rest3))) =>
                  match hex4 h1 h2 h3 h4 with
                  | Some u => cons_item (CodeUnit u) (string_items rest3)
                  | None => None
                  end
              | _ => None
              end
            else
              match simple_escape e with
              | Some b => cons_item (RawByte b) (string_items rest2)
              | None => None
              end
        | EmptyString => None
        end
      else if Nat.ltb (nat_of_ascii c) 32 then None
      else cons_item (RawByte c) (string_items rest)
  end.

Definition byte (n : N) : ascii := ascii_of_N n.

Definition utf8 (cp : N) : string :=
  (if cp <? 128 then String (byte cp) ""
   else if cp <? 2048 then
     String (byte (192 + cp / 64)) (String (byte (128 + cp mod 64)) "")
   else if cp <? 65536 then
     String (byte (224 + cp / 4096))
       (String (byte (128 + (cp / 64) mod 64))
          (String (byte (128 + cp mod 64)) ""))
   else
     String (byte (240 + cp / 262144))
       (String (byte (128 + (cp / 4096) mod 64))
          (String (byte (128 + (cp / 64) mod 64))
             (String (byte (128 + cp mod 64)) ""))))%N.

Definition is_high_surrogate (u : N) : bool := ((55296 <=? u) && (u <? 56320))%N.
Definition is_low_surrogate (u : N) : bool := ((56320 <=? u) && (u <? 57344))%N.

Fixpoint decode_items (items : list StringItem) : string :=
  match items with
  | [] => ""
  | RawByte c :: rest => String c (decode_items rest)
  | CodeUnit hi :: rest =>
      match rest with
      | CodeUnit lo :: rest' =>
          if is_high_surrogate hi && is_low_surrogate lo
          then utf8 (65536 + (hi - 55296) * 1024 + (lo - 56320))%N
                 ++ decode_items rest'
          else utf8 hi ++ decode_items rest
      | _ => utf8 hi ++ decode_items rest
      end
  end.

Definition string_literal (s : string) : option (string * string) :=
  match string_items s with
  | Some (items, rest) => Some (decode_items items, rest)
  | None => None
  end.

(** Leading decimal digits, most significant first. *)
Fixpoint digits (s : string) : list nat * string :=
  match s with
  | String c rest =>
      match digit_value c with
      | Some d => let '(ds, rest') := digits rest in (d :: ds, rest')
      | None => ([], s)
      end
  | EmptyString => ([], s)
  end.

Definition digits_value (ds : list nat) : Z :=
  fold_left (fun acc d => acc * 10 + Z.of_nat d)%Z ds 0%Z.

Definition fraction (s : string) : option (list nat * string) :=
  match s with
  | String "."%char rest =>
      match digits rest with
      | ([], _) => None
      | (ds, rest') => Some (ds, rest')
      end
  | _ => Some ([], s)
  end.

Definition signed_digits (s : string) : option (Z * string) :=
  let '(negative, s1) :=
    match s with
    | String "-"%char rest => (true, rest)
    | String "+"%char rest => (false, rest)
    | _ => (false, s)
    end in
  match digits s1 with
  | ([], _) => None
  | (ds, rest) =>
      Some (if negative then (- digits_value ds)%Z else digits_value ds, rest)
  end.

Definition exponent (s : string) : option (Z * string) :=
  match s with
  | String "e"%char rest => signed_digits rest
  | String "E"%char rest => signed_digits rest
  | _ => Some (0%Z, s)
  end.

Definition number (s : string) : option (JsValue * string) :=
  let '(negative, s1) :=
    match s with
    | String "-"%char rest => (true, rest)
    | _ => (false, s)
    end in
  match digits s1 with
  | ([], _) => None
  | (0 :: _ :: _, _) => None
  | (int_part, s2) =>
      match fraction s2 with
      | None => None
      | Some (frac_part, s3) =>
          match exponent s3 with
          | None => None
          | Some (e, s4) =>
              let m := digits_value (int_part ++ frac_part) in
              Some (JNumber (if negative then (- m)%Z else m)
                      (e - Z.of_nat (length frac_part))%Z, s4)
          end
      end
  end.

Definition strip_prefix (p s : string) : option string :=
  if String.prefix p s
  then Some (String.substring (String.length p)
               (String.length s - String.length p) s)
  else None.

Fixpoint value (fuel : nat) (s : string) : option (JsValue * string) :=
  match fuel with
  | 0 => None
  | S fuel =>
      match skip_whitespace s with
      | EmptyString => None
      | String c rest as s' =>
          if Ascii.eqb c dquote then
            match string_literal rest with
            | Some (str, rest') => Some (JString str, rest')
            | None => None
            end
          else if Ascii.eqb c "["%char then
            match skip_whitespace rest with
            | String "]"%char rest' => Some (JArray [], rest')
            | _ =>
                match elements fuel rest with
                | Some (vs, rest') => Some (JArray vs, rest')
                | None => None
                end
            end
          else if Ascii.eqb c "{"%char then
            match skip_whitespace rest with
            | String "}"%char rest' => Some (JObject [], rest')
            | _ =>
                match members fuel rest with
                | Some (kvs, rest') => Some (JObject kvs, rest')
                | None => None
                end
            end
          else
            match strip_prefix "null" s', strip_prefix "true" s',
                  strip_prefix "false" s' with
            | Some rest', _, _ => Some (JNull, rest')
            | _, Some rest', _ => Some (JBool true, rest')
            | _, _, Some rest' => Some (JBool false, rest')
            | None, None, None => number s'
            end
      end
  end

with elements (fuel : nat) (s : string) : option (list JsValue * string) :=
  match fuel with
  | 0 => None
  | S fuel =>
      match value fuel s with
      | Some (v, rest) =>
          match skip_whitespace rest with
          | String "]"%char rest' => Some ([v], rest')
          | String ","%char rest' =>
              match elements fuel rest' with
              | Some (vs, rest'') => Some (v :: vs, rest'')
              | None => None
              end
          | _ => None
          end
      | None => None
      end
  end

with members (fuel : nat) (s : string)
  : option (list (string * JsValue) * string) :=
  match fuel with
  | 0 => None
  | S fuel =>
      match skip_whitespace s with
      | String c rest =>
          if Ascii.eqb c dquote then
            match string_literal rest with
            | Some (key, rest1) =>
                match skip_whitespace rest1 with
                | String ":"%char rest2 =>
                    match value fuel rest2 with
                    | Some (v, rest3) =>
                        match skip_whitespace rest3 with
                        | String "}"%char rest' => Some ([(key, v)], rest')
                        | String ","%char rest' =>
                            match members fuel rest' with
                            | Some (kvs, rest'') => Some ((key, v) :: kvs, rest'')
                            | None => None
                            end
                        | _ => None
                        end
                    | None => None
                    end
                | _ => None
                end
            | None => None
            end
          else None
      | EmptyString => None
      end
  end.

Definition SyntaxError : JsThrown :=
  ErrorObject "SyntaxError" "JSON.parse: the text is not valid JSON".

(** The fuel bounds the depth of the recursion of [value]; a level that
    does not consume a character of the text is followed by one that does,
    hence twice the length.  Running out of fuel is reported like a syntax
    error, so a rejection counts only where it holds at any fuel. *)
Definition parse (text : string) : Completion JsValue :=
  match value (2 * String.length text + 2) text with
  | Some (v, rest) =>
      match skip_whitespace rest with
      | EmptyString => Normal v
      | _ => Abrupt SyntaxError
      end
  | None => Abrupt SyntaxError
  end.

(** [JSON.stringify] of a string: quoted, with the quote, the backslash and
    the control characters escaped. *)
Definition hex_digit (n : nat) : ascii :=
  if Nat.ltb n 10 then ascii_of_nat (48 + n) else ascii_of_nat (87 + n).

Definition escape_char (c : ascii) : string :=
  let n := nat_of_ascii c in
  if Nat.eqb n 34 then String backslash (String dquote "")
  else if Nat.eqb n 92 then String backslash (String backslash "")
  else if Nat.eqb n 8 then String backslash "b"
  else if Nat.eqb n 12 then String backslash "f"
  else if Nat.eqb n 10 then String backslash "n"
  else if Nat.eqb n 13 then String backslash "r"
  else if Nat.eqb n 9 then String backslash "t"
  else if Nat.ltb n 32 then
    String backslash ("u00" ++ String (hex_digit (n / 16))
                                 (String (hex_digit (n mod 16)) ""))
  else String c "".

Fixpoint escape (s : string) : string :=
  match s with
  | EmptyString => ""
  | String c rest => escape_char c ++ escape rest
  end.

Definition quote (s : string) : string :=
  String dquote (escape s ++ String dquote "").

Fixpoint join (sep : string) (l : list string) : string :=
  match l with
  | [] => ""
  | [x] => x
  | x :: rest => x ++ sep ++ join sep rest
  end.

(** [JSON.stringify({ selectedFeatures, timestamp })], the timestamp being
    an integer number of milliseconds. *)
Definition stringify (state : FilterState) : string :=
  "{" ++ quote "selectedFeatures" ++ ":[" ++
  join "," (quote <$> fs_selectedFeatures state) ++ "]," ++
  quote "timestamp" ++ ":" ++ pretty (fs_timestamp state) ++ "}".

End JSON_text.

(** The platform of the examples below. *)
Definition example_platform : Platform :=
  {| TribesURL := "https://tribes.example";
     JSON_parse := JSON_text.parse;
     JSON_stringify := JSON_text.stringify |}.

(** ** Sequencing of runs *)

(** [r] followed by [r'], which starts where [r] ends. *)
Definition followed_by {A B : Type} (r : Run A) (r' : Run B) : Run B :=
  {| settled := settled r'; final := final r';
     fetched := fetched r ++ fetched r';
     observed := observed r ++ observed r' |}.

(** What the callback makes of the outcome of its [fetch]. *)
Definition proof_count (reply : FetchOutcome JsValue) : nat :=
  match reply with
  | Normal proofsResponse =>
      if ok proofsResponse then
        match json proofsResponse with
        | Normal proofs => if Array_isArray proofs then array_length proofs else 0
        | Abrupt _ => 0
        end
      else 0
  | Abrupt _ => 0
  end.

(** What the [try] block makes of the outcome of the list fetch: the body
    of the response, or the value thrown on the way to it. *)
Definition list_outcome (reply : FetchOutcome (option (list BountyCard)))
  : Completion (option (list BountyCard)) :=
  match reply with
  | Normal response =>
      if ok response then json response
      else Abrupt (new_Error ("Failed to load bounties: " ++ statusText response))
  | Abrupt e => Abrupt e
  end.

(** The message the [catch] block stores for a thrown value. *)
Definition error_message (e : JsThrown) : string :=
  if instanceof_Error e then message e else "An unknown error occurred".

(** The store once [loadWorkspaceBounties] has announced the load. *)
Definition announced (s : Store) : Store := set_error None (set_loading true s).

(** ** Example data *)

Definition card_b1 : BountyCard :=
  {| id := "b1"; status := TODO; features := Some {| uuid := "f1" |};
     pow := None |}.

Definition card_b2 : BountyCard :=
  {| id := "b2"; status := IN_PROGRESS; features := None; pow := None |}.

Definition card_b3 : BountyCard :=
  {| id := "b3"; status := PAID; features := Some {| uuid := "f2" |};
     pow := Some 7 |}.

(** A browser tab with a signed-in user and an empty session storage, in
    which a store for workspace [ws1] has just got its fields. *)
Definition signed_in : World :=
  {| this := new_fields "ws1";
     uiStore_meInfo := Some {| tribe_jwt := "token" |};
     sessionStorage := ∅;
     Date_now := 1700000000000 |}.

(** The same tab with nobody signed in. *)
Definition signed_out : World := set_uiStore_meInfo None signed_in.

Definition ok_response {B : Type} (body : B) : FetchOutcome B :=
  Normal {| ok := true; statusText := "OK"; json := Normal body |}.

Definition proof_record (n : Z) : JsValue :=
  JObject [("id", JNumber n 0); ("status", JString "New")].

(** A backend holding three cards for every workspace: two proofs for
    [b1], none for [b2], and a server error on the proofs of anything
    else. *)
Definition three_cards : Network :=
  {| bountyCards_reply := fun _ _ => ok_response (Some [card_b1; card_b2; card_b3]);
     proofs_reply := fun _ req =>
       if String.eqb (url req) "https://tribes.example/gobounties/b1/proofs"
       then ok_response (JArray [proof_record 1; proof_record 2])
       else if String.eqb (url req) "https://tribes.example/gobounties/b2/proofs"
       then ok_response (JArray [])
       else Normal {| ok := false; statusText := "Internal Server Error";
                      json := Normal JNull |} |}.

(** A backend on which every proofs request succeeds with one record. *)
Definition one_proof_each : Network :=
  {| bountyCards_reply := fun _ _ => ok_response (Some [card_b1; card_b2]);
     proofs_reply := fun _ _ => ok_response (JArray [proof_record 1]) |}.

(** A backend whose card list is [null]. *)
Definition null_list : Network :=
  {| bountyCards_reply := fun _ _ => ok_response None;
     proofs_reply := fun _ _ => ok_response (JArray [proof_record 1]) |}.

(** A backend that is down. *)
Definition unreachable : Network :=
  {| bountyCards_reply := fun _ _ =>
       Abrupt (ErrorObject "TypeError" "Failed to fetch");
     proofs_reply := fun _ _ =>
       Abrupt (ErrorObject "TypeError" "Failed to fetch") |}.

(** A load is in flight for [ws1], the store's first, when the user signs
    out; [loadWorkspaceBounties] is then called again. *)
Definition signed_out_mid_load : World :=
  set_uiStore_meInfo None
    (fst (advance (loadWorkspaceBounties (engine := example_platform)) signed_in)).

(** An overlap of two loads.  The store's first load, for [ws1], is still
    in flight when the user switches to [ws2]; the backend answers the
    second load first (no cards in [ws2]), then the first (one card in
    [ws1], without proofs). *)
Definition overlapping_loads : World * Suspended unit :=
  let '(w1, load_ws1) :=
    advance (loadWorkspaceBounties (engine := example_platform)) signed_in in
  let '(w2, load_ws2) :=
    advance (switchWorkspace (engine := example_platform) "ws2") w1 in
  let '(w3, _) := deliver_bountyCards load_ws2 (ok_response (Some [])) w2 in
  let '(w4, load_ws1) :=
    deliver_bountyCards load_ws1 (ok_response (Some [card_b1])) w3 in
  deliver_proofs load_ws1 (ok_response (JArray [])) w4.

(** The request a suspended method waits on. *)
Definition awaited {A : Type} (p : Suspended A) : option Request :=
  match p with
  | Settled _ => None
  | AwaitingBountyCards req _ => Some req
  | AwaitingProofs req _ => Some req
  end.

(** A tab whose slot under the key holds text that is not JSON. *)
Definition corrupt_filter : World :=
  set_sessionStorage (<["bountyFilterState" := "not json"]> ∅) signed_in.

(** A store showing three cards, one of them with an empty [uuid]. *)
Definition showing_cards : World :=
  set_this
    (set_bountyCards
       [card_b1; card_b2; card_b3;
        {| id := "b4"; status := TODO; features := Some {| uuid := "" |};
           pow := None |}]
       (new_fields "ws1")) signed_in.

(** ** The status views *)

#[global] Instance BountyCardStatus_eq_dec : EqDecision BountyCardStatus.
Proof. solve_decision. Defined.

Definition todoItems (s : Store) : list BountyCard :=
  List.filter (fun card => bool_decide (status card = TODO)) (bountyCards s).

Definition assignedItems (s : Store) : list BountyCard :=
  List.filter (fun card => bool_decide (status card = IN_PROGRESS))
    (bountyCards s).

Definition completedItems (s : Store) : list BountyCard :=
  List.filter (fun card => bool_decide (status card = COMPLETED))
    (bountyCards s).

Definition paidItems (s : Store) : list BountyCard :=
  List.filter (fun card => bool_decide (status card = PAID)) (bountyCards s).

Definition reviewItems (s : Store) : list BountyCard :=
  List.filter (fun card => bool_decide (status card = IN_REVIEW))
    (bountyCards s).

(** ** useUserInfo (src/people/userInfo/hooks.ts)

    The hook reads the selected person and hands the view a few derived
    values and callbacks.  The stores, the router and [getHost] are the
    application's; what the callbacks do to them is recorded as the
    sequence of calls they make. *)
Module UserInfo.

(** The fields of the person the hook destructures; each may be missing,
    as the whole person may ([person || {}]). *)
Record Person : Type := {
  img : option string;
  owner_alias : option string;
  owner_pubkey : option string
}.

(** [x || fallback] for [x : string | undefined]. *)
Definition or_else (x : option string) (fallback : string) : string :=
  match x with
  | Some s => if truthy s then s else fallback
  | None => fallback
  end.

(** [makeQR], with the module constant [host] as a parameter. *)
Definition makeQR (host pubkey : string) : string :=
  "sphinx.chat://?action=person&host=" ++ host ++ "&pubkey=" ++ pubkey.

Definition defaultPic : string := "/static/person_placeholder.png".

(** [const { img, owner_alias, owner_pubkey } = person || {}] *)
Definition field (f : Person -> option string) (person : option Person)
  : option string :=
  match person with
  | Some p => f p
  | None => None
  end.

Definition qrString (host : string) (person : option Person) : string :=
  makeQR host (or_else (field owner_pubkey person) "").

Definition userImg (person : option Person) : string :=
  or_else (field img person) defaultPic.

(** A call on one of the hook's collaborators. *)
Inductive Call : Type :=
| ui_setSelectingPerson (n : Z)
| ui_setSearchText (text : string)
| ui_setEditMe (b : bool)
| ui_setMeInfo_null
| main_getPeople_resetPage
| main_setLnToken (token : string)
| modals_setUserEditModal (b : bool)
| console_log (line : string)
| history_replace (path : string)
| history_push (path : string).

Definition goBack (localStorage : gmap string string) : list Call :=
  ui_setSelectingPerson 0 ::
  match localStorage !! "key" with
  | Some path =>
      if truthy path then [ui_setSearchText ""; history_replace path]
      else [history_replace "/"]
  | None => [history_replace "/"]
  end.

Definition logout : list Call :=
  [ui_setEditMe false; console_log "logging out!"; ui_setMeInfo_null;
   main_getPeople_resetPage; main_setLnToken ""; history_push "/"].

Definition onEdit : list Call := [modals_setUserEditModal true].

(** Where a call navigates to, if it does. *)
Definition navigation (c : Call) : option string :=
  match c with
  | history_replace path => Some path
  | history_push path => Some path
  | _ => None
  end.

End UserInfo.

(** ** Persisted filter states *)

Section Persisted.
Context {engine : Platform}.

(** The engine gives [state] back: its stringified text is not empty and
    parses to an object whose [selectedFeatures] member is the array of
    the selected strings. *)
Definition restorable (state : FilterState) : Prop :=
  JSON_stringify state ≠ "" ∧
  ∃ members,
    JSON_parse (JSON_stringify state) = Normal (JObject members) ∧
    member "selectedFeatures" members =
    Some (JArray (JString <$> fs_selectedFeatures state)).

End Persisted.

(** ** More example data *)

(** A backend that answers the list request with a 500. *)
Definition list_500 : Network :=
  {| bountyCards_reply := fun _ _ =>
       Normal {| ok := false; statusText := "Internal Server Error";
                 json := Normal None |};
     proofs_reply := fun _ _ => ok_response (JArray []) |}.

(** A backend whose proofs endpoint answers with an object. *)
Definition proofs_as_object : Network :=
  {| bountyCards_reply := fun _ _ => ok_response (Some [card_b3]);
     proofs_reply := fun _ _ =>
       ok_response (JObject [("proofs", JArray [proof_record 1])]) |}.

(** The tab of [showing_cards] after the user has selected [f1]. *)
Definition f1_selected : World :=
  toggleFeature (engine := example_platform) "f1" showing_cards.

(** A selection that lists [f1] twice, as a stored record may. *)
Definition f1_listed_twice : World :=
  set_this (set_selectedFeatures ["f1"; "f2"; "f1"] (this showing_cards))
    showing_cards.

Definition alice : UserInfo.Person :=
  {| UserInfo.img := Some "https://img.example/alice.png";
     UserInfo.owner_alias := Some "alice";
     UserInfo.owner_pubkey := Some "02abc" |}.

(** * Properties *)

Section Properties.
Context {engine : Platform}.

Lemma followed_by_nil {A B : Type} (c : Completion A) (w : World) (r : Run B) :
  followed_by {| settled := c; final := w; fetched := []; observed := [] |} r = r.
Proof. destruct r; reflexivity. Qed.

Lemma followed_by_suspended {A B : Type} req s (r : Run A) (r' : Run B) :
  followed_by (suspended_on req s r) r' = suspended_on req s (followed_by r r').
Proof. reflexivity. Qed.

Lemma run_bind {A B : Type} net (m : Async A) (f : A → Async B) :
  ∀ n w,
    run net n (bind m f) w =
    let r := run net n m w in
    match settled r with
    | Normal a =>
        followed_by r (run net (n + length (fetched r)) (f a) (final r))
    | Abrupt e =>
        {| settled := Abrupt e; final := final r;
           fetched := fetched r; observed := observed r |}
    end.
Proof.
  induction m as [a|e|k IH|g k IH|line k IH|req k IH|req k IH];
    intros n w; cbn [bind run].
  - cbn. rewrite Nat.add_0_r. by destruct (run net n (f a) w).
  - reflexivity.
  - apply IH.
  - apply IH.
  - apply IH.
  - rewrite IH. cbn. destruct (settled _); cbn; [|done].
    by rewrite Nat.add_succ_r.
  - rewrite IH. cbn. destruct (settled _); cbn; [|done].
    by rewrite Nat.add_succ_r.
Qed.

Lemma run_try_catch {A : Type} net (m : Async A) (h : JsThrown → Async A) :
  ∀ n w,
    run net n (try_catch m h) w =
    let r := run net n m w in
    match settled r with
    | Normal a => r
    | Abrupt e =>
        followed_by r (run net (n + length (fetched r)) (h e) (final r))
    end.
Proof.
  induction m as [a|e|k IH|g k IH|line k IH|req k IH|req k IH];
    intros n w; cbn [try_catch run].
  - reflexivity.
  - cbn. rewrite Nat.add_0_r. by destruct (run net n (h e) w).
  - apply IH.
  - apply IH.
  - apply IH.
  - rewrite IH. cbn. destruct (settled _); cbn; [done|].
    by rewrite Nat.add_succ_r.
  - rewrite IH. cbn. destruct (settled _); cbn; [done|].
    by rewrite Nat.add_succ_r.
Qed.

Lemma run_try_finally {A : Type} net (m : Async A) (fin : Async unit) :
  ∀ n w,
    run net n (try_finally m fin) w =
    let r := run net n m w in
    followed_by r
      (run net (n + length (fetched r))
         (bind fin (fun _ => await (settled r))) (final r)).
Proof.
  induction m as [a|e|k IH|g k IH|line k IH|req k IH|req k IH];
    intros n w; cbn [try_finally run].
  - cbn. rewrite Nat.add_0_r. by destruct (run net n _ w).
  - cbn. rewrite Nat.add_0_r. by destruct (run net n _ w).
  - apply IH.
  - apply IH.
  - apply IH.
  - rewrite IH. cbn. by rewrite Nat.add_succ_r.
  - rewrite IH. cbn. by rewrite Nat.add_succ_r.
Qed.

(** A run is a first turn followed, if the method is then waiting, by the
    run of its continuation on the reply. *)
Lemma run_advance {A : Type} net (m : Async A) :
  ∀ n w,
    run net n m w =
    match advance m w with
    | (w', Settled c) =>
        {| settled := c; final := w'; fetched := []; observed := [] |}
    | (w', AwaitingBountyCards req k) =>
        suspended_on req (this w')
          (run net (S n) (k (bountyCards_reply net n req)) w')
    | (w', AwaitingProofs req k) =>
        suspended_on req (this w')
          (run net (S n) (k (proofs_reply net n req)) w')
    end.
Proof.
  induction m as [a|e|k IH|g k IH|line k IH|req k IH|req k IH];
    intros n w; cbn [run advance]; try done; apply IH.
Qed.

(** *** The proof fan-out *)

Lemma run_bountyWithProofs net n jwt bounty w :
  run net n (bountyWithProofs jwt bounty) w =
  {| settled :=
       Normal (with_pow bounty
                 (proof_count (proofs_reply net n (GET (proofsUrl bounty) jwt))));
     final := w;
     fetched := [GET (proofsUrl bounty) jwt];
     observed := [this w] |}.
Proof.
  unfold bountyWithProofs, proof_count. cbn.
  destruct (proofs_reply net n _) as [[ok' text body]|e]; cbn; [|done].
  destruct ok'; cbn; [|done].
  destruct body as [proofs|e]; cbn; done.
Qed.

(** The cards after the fan-out: card [i] with the count drawn from the
    outcome of fetch number [n + i]. *)
Lemma run_Promise_all_map net jwt cards :
  ∀ n w,
    run net n (Promise_all_map (bountyWithProofs jwt) cards) w =
    {| settled :=
         Normal (imap (fun i bounty =>
                   with_pow bounty
                     (proof_count
                        (proofs_reply net (n + i) (GET (proofsUrl bounty) jwt))))
                   cards);
       final := w;
       fetched := (fun bounty => GET (proofsUrl bounty) jwt) <$> cards;
       observed := replicate (length cards) (this w) |}.
Proof.
  induction cards as [|bounty cards IH]; intros n w; cbn [Promise_all_map].
  - reflexivity.
  - rewrite run_bind, run_bountyWithProofs. cbn [settled fetched final length].
    rewrite run_bind, IH. unfold followed_by. cbn.
    rewrite Nat.add_0_r, !app_nil_r. do 3 f_equal.
    apply imap_ext. intros i x _. cbn. do 3 f_equal. lia.
Qed.

(** *** loadWorkspaceBounties, case by case *)

Lemma spread_id bounty : spread bounty = bounty.
Proof. by destruct bounty. Qed.

Lemma map_spread cards : map spread cards = cards.
Proof.
  induction cards as [|c cards IH]; cbn; [done|]. by rewrite spread_id, IH.
Qed.

Lemma truthy_true s : truthy s = true ↔ s ≠ "".
Proof.
  unfold truthy. destruct (String.eqb_spec s ""); cbn; split; congruence.
Qed.

Lemma truthy_false s : truthy s = false ↔ s = "".
Proof.
  unfold truthy. destruct (String.eqb_spec s ""); cbn; split; congruence.
Qed.

(** The guard fails: one action, no fetch. *)
Lemma run_load_guard net n w :
  truthy (currentWorkspaceId (this w)) = false ∨
  truthy_opt (tribe_jwt <$> uiStore_meInfo w) = false →
  run net n loadWorkspaceBounties w =
  {| settled := Normal tt;
     final := set_this (set_error (Some "Missing workspace ID or authentication")
                          (this w)) w;
     fetched := []; observed := [] |}.
Proof.
  intros Hguard. unfold loadWorkspaceBounties. cbn [run].
  destruct Hguard as [-> | ->]; cbn; [done|].
  by rewrite orb_true_r.
Qed.

Lemma absent_fails_guard w :
  currentWorkspaceId (this w) = "" ∨
  tribe_jwt <$> uiStore_meInfo w = None ∨
  tribe_jwt <$> uiStore_meInfo w = Some "" →
  truthy (currentWorkspaceId (this w)) = false ∨
  truthy_opt (tribe_jwt <$> uiStore_meInfo w) = false.
Proof. intros [-> | [-> | ->]]; cbn; auto. Qed.

(** The guard passes: the list fetch, then either the fan-out and the
    commit, or the [catch] block; [loading] is cleared in both cases. *)
Lemma run_load_ready net n w jwt :
  truthy (currentWorkspaceId (this w)) = true →
  tribe_jwt <$> uiStore_meInfo w = Some jwt →
  truthy jwt = true →
  let request := GET (bountyCardsUrl (currentWorkspaceId (this w))) jwt in
  run net n loadWorkspaceBounties w =
  match list_outcome (bountyCards_reply net n request) with
  | Normal data =>
      let cards := default [] data in
      {| settled := Normal tt;
         final :=
           set_this
             (set_loading false
                (set_bountyCards
                   (imap (fun i bounty =>
                      with_pow bounty
                        (proof_count
                           (proofs_reply net (S n + i)
                              (GET (proofsUrl bounty) jwt)))) cards)
                   (announced (this w)))) w;
         fetched := request :: ((fun bounty => GET (proofsUrl bounty) jwt) <$> cards);
         observed :=
           announced (this w) :: replicate (length cards) (announced (this w)) |}
  | Abrupt e =>
      {| settled := Normal tt;
         final :=
           set_this
             (set_loading false
                (set_error (Some (error_message e)) (announced (this w)))) w;
         fetched := [request];
         observed := [announced (this w)] |}
  end.
Proof.
  intros Hws Hjwt Hj request. unfold loadWorkspaceBounties. cbn [run].
  rewrite Hws, Hjwt. cbn [truthy_opt negb orb default]. rewrite Hj. cbn [negb].
  rewrite run_try_finally, run_try_catch. cbn [bind runInAction run].
  cbn [set_this this currentWorkspaceId set_error set_loading].
  subst request. unfold list_outcome.
  destruct (bountyCards_reply net n _) as [[ok' text body]|e]; cbn.
  - destruct ok'; cbn; [|done].
    destruct body as [data|e]; cbn; [|done].
    rewrite run_bind, run_Promise_all_map. cbn.
    rewrite map_spread. unfold followed_by, suspended_on, announced. cbn.
    by rewrite !app_nil_r.
  - done.
Qed.

(** *** The precondition check *)

(** C4, amended.  When the workspace id or the auth token is absent
    (empty id, nobody signed in, or an empty token),
    [loadWorkspaceBounties] settles normally without issuing a single
    fetch; it sets [error] to a non-empty message and leaves [bountyCards]
    and [loading] exactly as they were before the call: empty and false on
    a store that has loaded nothing, neither emptied nor cleared
    otherwise. *)
Theorem loadWorkspaceBounties_missing_precondition net n w :
  currentWorkspaceId (this w) = "" ∨
  tribe_jwt <$> uiStore_meInfo w = None ∨
  tribe_jwt <$> uiStore_meInfo w = Some "" →
  let r := run net n loadWorkspaceBounties w in
  settled r = Normal tt ∧
  fetched r = [] ∧
  (∃ msg, error (this (final r)) = Some msg ∧ msg ≠ "") ∧
  this (final r) =
    set_error (Some "Missing workspace ID or authentication") (this w) ∧
  bountyCards (this (final r)) = bountyCards (this w) ∧
  loading (this (final r)) = loading (this w).
Proof.
  intros Habsent r. subst r.
  rewrite run_load_guard by by apply absent_fails_guard.
  cbn. repeat split; try done.
  eexists; split; [reflexivity | discriminate].
Qed.

(** *** A successful load *)

(** C1.  The list fetch succeeds with [N] cards and every proofs fetch
    succeeds with an array: [bountyCards] becomes, whatever it held before,
    the list of the [N] response cards in response order, each with its
    [pow] field holding the length of its proof array and its other
    fields as in the response. *)
Theorem loadWorkspaceBounties_success
    net n w jwt text cards (proofs : list (list JsValue)) :
  currentWorkspaceId (this w) ≠ "" →
  tribe_jwt <$> uiStore_meInfo w = Some jwt →
  jwt ≠ "" →
  bountyCards_reply net n
    (GET (bountyCardsUrl (currentWorkspaceId (this w))) jwt) =
    Normal {| ok := true; statusText := text; json := Normal (Some cards) |} →
  (∀ i card, cards !! i = Some card →
     ∃ text' array,
       proofs !! i = Some array ∧
       proofs_reply net (S n + i) (GET (proofsUrl card) jwt) =
       Normal {| ok := true; statusText := text'; json := Normal (JArray array) |}) →
  let r := run net n loadWorkspaceBounties w in
  settled r = Normal tt ∧
  bountyCards (this (final r)) =
    zip_with (fun card array =>
                {| id := id card; status := status card;
                   features := features card;
                   pow := Some (length array) |}) cards proofs ∧
  length (bountyCards (this (final r))) = length cards ∧
  (∀ i card array, cards !! i = Some card → proofs !! i = Some array →
     ∃ committed,
       bountyCards (this (final r)) !! i = Some committed ∧
       pow committed = Some (length array) ∧
       id committed = id card ∧
       status committed = status card ∧
       features committed = features card).
Proof.
  intros Hws Hjwt Hj Hlist Hproofs r. subst r.
  rewrite (run_load_ready net n w jwt) by (by try apply truthy_true).
  rewrite Hlist. cbn.
  assert (Hpow : ∀ i card array,
            cards !! i = Some card → proofs !! i = Some array →
            imap (fun i bounty =>
                    with_pow bounty
                      (proof_count
                         (proofs_reply net (S (n + i))
                            (GET (proofsUrl bounty) jwt)))) cards !! i
            = Some {| id := id card; status := status card;
                      features := features card;
                      pow := Some (length array) |}).
  { intros i card array Hcard Harray.
    rewrite list_lookup_imap, Hcard. cbn.
    destruct (Hproofs i card Hcard) as (text' & array' & Harray' & Hreply).
    cbn in Hreply. rewrite Hreply. cbn. unfold with_pow. congruence. }
  split; [done|]. split; [|split; [by rewrite length_imap|]].
  - apply list_eq. intros i.
    rewrite lookup_zip_with.
    destruct (cards !! i) as [card|] eqn:Hcard; cbn.
    + destruct (Hproofs i card Hcard) as (text' & array & Harray & _).
      rewrite Harray. cbn. by apply Hpow.
    + by rewrite list_lookup_imap, Hcard.
  - intros i card array Hcard Harray. eexists.
    split; [by apply Hpow|]. done.
Qed.

(** C3.  The list fetch succeeds and the proofs fetches end any way they
    like: the whole batch is committed and [error] is unset.  Every
    committed card has the [id], [status] and [features] of its response
    card.  A card whose proofs fetch failed, with a non-success status or
    by throwing (the fetch or the reading of the body), has [pow] 0,
    whatever [pow] the response carried; a card whose proofs fetch
    succeeded with an array has in [pow] the length of that array. *)
Theorem loadWorkspaceBounties_proofs_failure net n w jwt text cards :
  currentWorkspaceId (this w) ≠ "" →
  tribe_jwt <$> uiStore_meInfo w = Some jwt →
  jwt ≠ "" →
  bountyCards_reply net n
    (GET (bountyCardsUrl (currentWorkspaceId (this w))) jwt) =
    Normal {| ok := true; statusText := text; json := Normal (Some cards) |} →
  let r := run net n loadWorkspaceBounties w in
  settled r = Normal tt ∧
  error (this (final r)) = None ∧
  length (bountyCards (this (final r))) = length cards ∧
  ∀ i card, cards !! i = Some card →
    let reply := proofs_reply net (S n + i) (GET (proofsUrl card) jwt) in
    ∃ committed,
      bountyCards (this (final r)) !! i = Some committed ∧
      id committed = id card ∧
      status committed = status card ∧
      features committed = features card ∧
      ((∃ e, reply = Abrupt e) ∨
       (∃ response, reply = Normal response ∧ ok response = false) ∨
       (∃ response e, reply = Normal response ∧ json response = Abrupt e) →
       pow committed = Some 0) ∧
      (∀ text' array,
         reply = Normal {| ok := true; statusText := text';
                           json := Normal (JArray array) |} →
         pow committed = Some (length array)).
Proof.
  intros Hws Hjwt Hj Hlist r. subst r.
  rewrite (run_load_ready net n w jwt) by (by try apply truthy_true).
  rewrite Hlist. cbn.
  split; [done|]. split; [done|]. split; [by rewrite length_imap|].
  intros i card Hcard. eexists.
  split; [by rewrite list_lookup_imap, Hcard|]. cbn.
  split; [done|]. split; [done|]. split; [done|]. split.
  - intros [[e ->] | [(response & -> & Hok) | (response & e & -> & Hbody)]];
      cbn; [done| by rewrite Hok |].
    rewrite Hbody. by destruct (ok response).
  - by intros text' array ->.
Qed.

(** C10.  The list fetch succeeds and its body is [null]: [bountyCards]
    becomes the empty list, the list request is the only request issued,
    and [error] is unset. *)
Theorem loadWorkspaceBounties_null_body net n w jwt text :
  currentWorkspaceId (this w) ≠ "" →
  tribe_jwt <$> uiStore_meInfo w = Some jwt →
  jwt ≠ "" →
  bountyCards_reply net n
    (GET (bountyCardsUrl (currentWorkspaceId (this w))) jwt) =
    Normal {| ok := true; statusText := text; json := Normal None |} →
  let r := run net n loadWorkspaceBounties w in
  settled r = Normal tt ∧
  bountyCards (this (final r)) = [] ∧
  fetched r = [GET (bountyCardsUrl (currentWorkspaceId (this w))) jwt] ∧
  error (this (final r)) = None.
Proof.
  intros Hws Hjwt Hj Hlist r. subst r.
  rewrite (run_load_ready net n w jwt) by (by try apply truthy_true).
  by rewrite Hlist.
Qed.

(** *** Every path of a load *)

Lemma load_guard_cases w :
  (currentWorkspaceId (this w) = "" ∨
   tribe_jwt <$> uiStore_meInfo w = None ∨
   tribe_jwt <$> uiStore_meInfo w = Some "") ∨
  (currentWorkspaceId (this w) ≠ "" ∧
   ∃ jwt, tribe_jwt <$> uiStore_meInfo w = Some jwt ∧ jwt ≠ "").
Proof.
  destruct (decide (currentWorkspaceId (this w) = "")) as [|Hws]; [auto|].
  destruct (tribe_jwt <$> uiStore_meInfo w) as [jwt|]; [|auto].
  destruct (decide (jwt = "")) as [->|Hj]; [auto|].
  right. split; [done|]. by exists jwt.
Qed.

Lemma run_load_settles net n w :
  settled (run net n loadWorkspaceBounties w) = Normal tt.
Proof.
  destruct (load_guard_cases w) as [Habsent | (Hws & jwt & Hjwt & Hj)].
  - by rewrite run_load_guard by by apply absent_fails_guard.
  - rewrite (run_load_ready net n w jwt) by (by try apply truthy_true).
    by destruct (list_outcome _).
Qed.

(** C5, amended.  An invocation of [loadWorkspaceBounties] that passes the
    precondition check ends, from any starting state and on every path
    (HTTP failure or success), with [loading] false.  An invocation that
    fails the check returns before the [try] and leaves [loading] as it
    was, hence false if it was false before. *)
Theorem loadWorkspaceBounties_loading net n w :
  let r := run net n loadWorkspaceBounties w in
  settled r = Normal tt ∧
  (currentWorkspaceId (this w) ≠ "" →
   (∃ jwt, tribe_jwt <$> uiStore_meInfo w = Some jwt ∧ jwt ≠ "") →
   loading (this (final r)) = false) ∧
  (currentWorkspaceId (this w) = "" ∨
   tribe_jwt <$> uiStore_meInfo w = None ∨
   tribe_jwt <$> uiStore_meInfo w = Some "" →
   loading (this (final r)) = loading (this w)) ∧
  (loading (this w) = false → loading (this (final r)) = false).
Proof.
  intros r. subst r. split; [apply run_load_settles|].
  assert (Hready : currentWorkspaceId (this w) ≠ "" →
    (∃ jwt, tribe_jwt <$> uiStore_meInfo w = Some jwt ∧ jwt ≠ "") →
    loading (this (final (run net n loadWorkspaceBounties w))) = false).
  { intros Hws (jwt & Hjwt & Hj).
    rewrite (run_load_ready net n w jwt) by (by try apply truthy_true).
    by destruct (list_outcome _). }
  assert (Habsent : currentWorkspaceId (this w) = "" ∨
    tribe_jwt <$> uiStore_meInfo w = None ∨
    tribe_jwt <$> uiStore_meInfo w = Some "" →
    loading (this (final (run net n loadWorkspaceBounties w))) = loading (this w)).
  { intros Ha. by rewrite run_load_guard by by apply absent_fails_guard. }
  split; [done|]. split; [done|].
  intros Hfalse.
  destruct (load_guard_cases w) as [Ha | [Hws Hj]].
  - by rewrite Habsent.
  - by apply Hready.
Qed.

(** *** Turns of the event loop *)

Lemma advance_load_guard w :
  truthy (currentWorkspaceId (this w)) = false ∨
  truthy_opt (tribe_jwt <$> uiStore_meInfo w) = false →
  advance loadWorkspaceBounties w =
  (set_this (set_error (Some "Missing workspace ID or authentication") (this w)) w,
   Settled (Normal tt)).
Proof.
  intros Hguard. unfold loadWorkspaceBounties. cbn [advance].
  destruct Hguard as [-> | ->]; cbn; [done|]. by rewrite orb_true_r.
Qed.

Lemma advance_load_ready w jwt :
  truthy (currentWorkspaceId (this w)) = true →
  tribe_jwt <$> uiStore_meInfo w = Some jwt →
  truthy jwt = true →
  ∃ k,
    advance loadWorkspaceBounties w =
    (set_this (announced (this w)) w,
     AwaitingBountyCards (GET (bountyCardsUrl (currentWorkspaceId (this w))) jwt) k).
Proof.
  intros Hws Hjwt Hj. unfold loadWorkspaceBounties. cbn [advance].
  rewrite Hws, Hjwt. cbn [truthy_opt negb orb default]. rewrite Hj.
  cbn. eauto.
Qed.

Lemma run_switchWorkspace net n w newWorkspaceId :
  currentWorkspaceId (this w) ≠ newWorkspaceId →
  run net n (switchWorkspace newWorkspaceId) w =
  run net n loadWorkspaceBounties
    (set_this (set_bountyCards []
                 (set_currentWorkspaceId newWorkspaceId (this w))) w).
Proof.
  intros Hnew. unfold switchWorkspace. cbn [run].
  by destruct (String.eqb_spec (currentWorkspaceId (this w)) newWorkspaceId).
Qed.

Lemma advance_switchWorkspace w newWorkspaceId :
  currentWorkspaceId (this w) ≠ newWorkspaceId →
  advance (switchWorkspace newWorkspaceId) w =
  advance loadWorkspaceBounties
    (set_this (set_bountyCards []
                 (set_currentWorkspaceId newWorkspaceId (this w))) w).
Proof.
  intros Hnew. unfold switchWorkspace. cbn [advance].
  by destruct (String.eqb_spec (currentWorkspaceId (this w)) newWorkspaceId).
Qed.

Lemma run_switchWorkspace_settles net n w newWorkspaceId :
  settled (run net n (switchWorkspace newWorkspaceId) w) = Normal tt.
Proof.
  destruct (decide (currentWorkspaceId (this w) = newWorkspaceId)) as [Heq|Hne].
  - unfold switchWorkspace. cbn [run].
    by destruct (String.eqb_spec (currentWorkspaceId (this w)) newWorkspaceId).
  - rewrite run_switchWorkspace by done. apply run_load_settles.
Qed.

(** *** Failures and the caller *)

Lemma restoreFilterState_throws w saved :
  sessionStorage w !! bountyFilterState = Some saved →
  (∃ e, restoreFilterState w = Throws e) ↔
  saved ≠ "" ∧
  ((∃ e, JSON_parse saved = Abrupt e) ∨ JSON_parse saved = Normal JNull).
Proof.
  intros Hsaved. unfold restoreFilterState. rewrite Hsaved.
  destruct (truthy saved) eqn:Htruthy.
  - apply truthy_true in Htruthy.
    destruct (JSON_parse saved) as [state|e].
    + destruct state; cbn;
        repeat match goal with
        | |- context [match ?x with _ => _ end] => destruct x
        end;
        split;
        try (intros [e He]; discriminate He);
        try (intros [_ [[e He] | He]]; discriminate He);
        eauto.
    + split; eauto.
  - apply truthy_false in Htruthy. split.
    + intros [e He]. discriminate He.
    + intros [Hne _]. done.
Qed.

(** The first turn of a load leaves the filter and its stored copy
    alone. *)
Lemma advance_load_keeps_filter w w1 p :
  advance loadWorkspaceBounties w = (w1, p) →
  sessionStorage w1 = sessionStorage w ∧
  selectedFeatures (this w1) = selectedFeatures (this w).
Proof.
  intros Hturn.
  destruct (truthy (currentWorkspaceId (this w))) eqn:Hws;
    [destruct (truthy_opt (tribe_jwt <$> uiStore_meInfo w)) eqn:Hjwt|].
  - destruct (tribe_jwt <$> uiStore_meInfo w) as [jwt|] eqn:Hj; [|done].
    destruct (advance_load_ready w jwt Hws Hj Hjwt) as [k Hk].
    rewrite Hk in Hturn. by inversion Hturn.
  - rewrite advance_load_guard in Hturn by auto. by inversion Hturn.
  - rewrite advance_load_guard in Hturn by auto. by inversion Hturn.
Qed.

(** C6, amended.  Neither [loadWorkspaceBounties] nor [switchWorkspace]
    ever rejects: every failure on their paths is caught and turned into
    state.  [restoreFilterState], invoked at construction, leaves
    [selectedFeatures] at its default empty list when nothing is stored
    under the key; it has no handler of its own, and throws, and the
    constructor with it, exactly when the stored text is non-empty and
    [JSON.parse] rejects it or yields [null]. *)
Theorem failures_become_state :
  (∀ net n w, settled (run net n loadWorkspaceBounties w) = Normal tt) ∧
  (∀ net n newWorkspaceId w,
     settled (run net n (switchWorkspace newWorkspaceId) w) = Normal tt) ∧
  (∀ w, sessionStorage w !! bountyFilterState = None →
     restoreFilterState w = Returns w) ∧
  (∀ workspaceId env,
     sessionStorage env !! bountyFilterState = None →
     ∃ w, (constructor workspaceId env).1 = Returns w ∧
          selectedFeatures (this w) = []) ∧
  (∀ w saved,
     sessionStorage w !! bountyFilterState = Some saved →
     (∃ e, restoreFilterState w = Throws e) ↔
     saved ≠ "" ∧
     ((∃ e, JSON_parse saved = Abrupt e) ∨ JSON_parse saved = Normal JNull)) ∧
  (∀ workspaceId env saved,
     sessionStorage env !! bountyFilterState = Some saved →
     (∃ e, (constructor workspaceId env).1 = Throws e) ↔
     saved ≠ "" ∧
     ((∃ e, JSON_parse saved = Abrupt e) ∨ JSON_parse saved = Normal JNull)).
Proof.
  split; [apply run_load_settles|].
  split; [intros; apply run_switchWorkspace_settles|].
  split; [by intros w Hnone; unfold restoreFilterState; rewrite Hnone|].
  split; [|split; [apply restoreFilterState_throws|]].
  - intros workspaceId env Hnone. unfold constructor.
    set (w0 := set_this (new_fields workspaceId) env).
    destruct (advance loadWorkspaceBounties w0) as [w1 p] eqn:Hturn.
    destruct (advance_load_keeps_filter w0 w1 p Hturn) as [Hstorage Hselected].
    exists w1. cbn. split; [|done].
    unfold restoreFilterState. rewrite Hstorage. cbn. by rewrite Hnone.
  - intros workspaceId env saved Hsaved. unfold constructor.
    set (w0 := set_this (new_fields workspaceId) env).
    destruct (advance loadWorkspaceBounties w0) as [w1 p] eqn:Hturn.
    destruct (advance_load_keeps_filter w0 w1 p Hturn) as [Hstorage _].
    cbn. apply restoreFilterState_throws. by rewrite Hstorage.
Qed.

(** *** Switching workspace *)

(** C9, amended.  For [newId] different from the current workspace id,
    the first turn of [switchWorkspace newId] sets [currentWorkspaceId]
    and empties [bountyCards] and only then starts the reload, so the
    store is seen empty under the new id while the list request is
    pending.  As long as no other load is in flight, it stays so at every
    suspension of the method, and the cards it ends with all come from the
    response to the list request for [newId]. *)
Theorem switchWorkspace_clears_then_reloads net n w newId :
  currentWorkspaceId (this w) ≠ newId →
  let turn := advance (switchWorkspace newId) w in
  let r := run net n (switchWorkspace newId) w in
  currentWorkspaceId (this turn.1) = newId ∧
  bountyCards (this turn.1) = [] ∧
  (∀ jwt, newId ≠ "" → tribe_jwt <$> uiStore_meInfo w = Some jwt → jwt ≠ "" →
     awaited turn.2 = Some (GET (bountyCardsUrl newId) jwt)) ∧
  Forall (fun s => currentWorkspaceId s = newId ∧ bountyCards s = [])
    (observed r) ∧
  currentWorkspaceId (this (final r)) = newId ∧
  (∀ card, card ∈ bountyCards (this (final r)) →
     ∃ jwt text cards original count,
       tribe_jwt <$> uiStore_meInfo w = Some jwt ∧
       bountyCards_reply net n (GET (bountyCardsUrl newId) jwt) =
       Normal {| ok := true; statusText := text; json := Normal (Some cards) |} ∧
       original ∈ cards ∧
       card = with_pow original count).
Proof.
  intros Hnew turn r. subst turn r.
  rewrite advance_switchWorkspace, run_switchWorkspace by done.
  set (w' := set_this (set_bountyCards [] (set_currentWorkspaceId newId (this w))) w).
  destruct (load_guard_cases w') as [Habsent | (Hws & jwt & Hjwt & Hj)].
  - apply absent_fails_guard in Habsent as Hguard.
    rewrite advance_load_guard, run_load_guard by done. cbn.
    repeat split; try done.
    + intros jwt' Hid Hjwt' Hj'. exfalso.
      destruct Habsent as [Hid' | [Hnone | Hempty]]; cbn in *; congruence.
    + intros card Hcard. by apply not_elem_of_nil in Hcard.
  - apply truthy_true in Hws as Hws', Hj as Hj'.
    destruct (advance_load_ready w' jwt Hws' Hjwt Hj') as [k ->].
    rewrite (run_load_ready net n w' jwt) by done. cbn in Hws, Hjwt |- *.
    split; [done|]. split; [done|].
    split; [intros jwt' _ Hjwt' _; congruence|].
    unfold list_outcome.
    destruct (bountyCards_reply net n _) as [[ok' text body]|e] eqn:Hreply; cbn.
    + destruct ok'; cbn.
      * destruct body as [data|e]; cbn.
        -- split; [constructor; [done|]; by apply Forall_replicate|].
           split; [done|].
           intros card Hcard.
           apply elem_of_lookup_imap in Hcard as (i & original & -> & Hlookup).
           destruct data as [cards|]; cbn in Hlookup; [|done].
           exists jwt, text, cards, original. eexists.
           repeat split; try done. by eapply list_elem_of_lookup_2.
        -- split; [by repeat constructor|]. split; [done|].
           intros card Hcard. by apply not_elem_of_nil in Hcard.
      * split; [by repeat constructor|]. split; [done|].
        intros card Hcard. by apply not_elem_of_nil in Hcard.
    + split; [by repeat constructor|]. split; [done|].
      intros card Hcard. by apply not_elem_of_nil in Hcard.
Qed.

(** *** The feature filter *)

Lemma includes_true l x : includes l x = true ↔ x ∈ l.
Proof. unfold includes. apply bool_decide_eq_true. Qed.

Lemma List_filter_decide {A : Type} (f : A → bool) (P : A → Prop)
    `{∀ x, Decision (P x)} (l : list A) :
  (∀ x, f x = true ↔ P x) → List.filter f l = filter P l.
Proof.
  intros Hf. induction l as [|x l IH]; [done|].
  rewrite filter_cons. cbn [List.filter]. rewrite IH.
  destruct (f x) eqn:Hfx.
  - by rewrite decide_True by by apply Hf.
  - rewrite decide_False; [done|]. intros HP. apply Hf in HP. congruence.
Qed.

(** The callback of [filteredBountyCards] decides [included]. *)
Lemma filter_callback_included selected card :
  (let hasNoFeature := negb (truthy_opt (features_uuid card)) in
   let isNoFeatureSelected := includes selected "no-feature" in
   let hasSelectedFeature :=
     match features_uuid card with
     | Some u => truthy u && includes selected u
     | None => false
     end in
   if hasNoFeature && isNoFeatureSelected then true
   else if hasSelectedFeature then true
   else false) = true ↔ included selected card.
Proof.
  unfold included, feature_identifier. cbn zeta.
  destruct (features_uuid card) as [u|]; cbn.
  - destruct (truthy u) eqn:Hu; cbn.
    + destruct (includes selected u) eqn:Hin.
      * split; [|done]. intros _. right. exists u.
        by apply includes_true in Hin.
      * split; [done|]. intros [[Hnone _] | (u' & Hsome & Hu')]; [done|].
        simplify_eq. apply includes_true in Hu'. congruence.
    + destruct (includes selected "no-feature") eqn:Hin.
      * split; [|done]. intros _. left. by apply includes_true in Hin.
      * split; [done|]. intros [[_ Hsel] | (u' & Hsome & _)]; [|done].
        apply includes_true in Hsel. congruence.
  - destruct (includes selected "no-feature") eqn:Hin.
    + split; [|done]. intros _. left. by apply includes_true in Hin.
    + split; [done|]. intros [[_ Hsel] | (u' & Hsome & _)]; [|done].
      apply includes_true in Hsel. congruence.
Qed.


(** *** Toggling and clearing the filter *)

Lemma toggleFeature_selected featureId w :
  selectedFeatures (this (toggleFeature featureId w)) =
  if includes (selectedFeatures (this w)) featureId
  then filter (fun id => id ≠ featureId) (selectedFeatures (this w))
  else selectedFeatures (this w) ++ [featureId].
Proof. unfold toggleFeature. by destruct (includes _ _). Qed.

Lemma toggleFeature_elem_of featureId g w :
  g ∈ selectedFeatures (this (toggleFeature featureId w)) ↔
  if decide (g = featureId) then g ∉ selectedFeatures (this w)
  else g ∈ selectedFeatures (this w).
Proof.
  rewrite toggleFeature_selected.
  destruct (includes _ _) eqn:Hin.
  - apply includes_true in Hin. rewrite list_elem_of_filter.
    destruct (decide (g = featureId)) as [->|Hne]; [|tauto].
    split; [by intros [? _]|done].
  - assert (Hout : featureId ∉ selectedFeatures (this w)).
    { intros Hin'. apply includes_true in Hin'. congruence. }
    rewrite elem_of_app, list_elem_of_singleton.
    destruct (decide (g = featureId)) as [->|Hne]; [|tauto].
    split; [done|auto].
Qed.

Lemma saveFilterState_stored w :
  sessionStorage (saveFilterState w) !! bountyFilterState =
  Some (JSON_stringify {| fs_selectedFeatures := selectedFeatures (this w);
                          fs_timestamp := Date_now w |}).
Proof. unfold saveFilterState. cbn. apply lookup_insert_eq. Qed.

(** C7.  [toggleFeature f] is a symmetric-difference update: afterwards
    [f] is selected iff it was not before, and every other identifier is
    selected iff it was before.  The new selection is persisted under the
    key at once.  Hence toggling [f] twice restores the membership of the
    selection. *)
Theorem toggleFeature_symmetric_difference f w :
  let w' := toggleFeature f w in
  (f ∈ selectedFeatures (this w') ↔ f ∉ selectedFeatures (this w)) ∧
  (∀ g, g ≠ f →
     (g ∈ selectedFeatures (this w') ↔ g ∈ selectedFeatures (this w))) ∧
  sessionStorage w' !! bountyFilterState =
    Some (JSON_stringify {| fs_selectedFeatures := selectedFeatures (this w');
                            fs_timestamp := Date_now w |}) ∧
  (∀ g, g ∈ selectedFeatures (this (toggleFeature f w')) ↔
        g ∈ selectedFeatures (this w)).
Proof.
  intros w'. subst w'. split; [|split; [|split]].
  - rewrite toggleFeature_elem_of. by rewrite decide_True.
  - intros g Hne. rewrite toggleFeature_elem_of. by rewrite decide_False.
  - unfold toggleFeature.
    destruct (includes _ _); by rewrite saveFilterState_stored.
  - intros g. rewrite toggleFeature_elem_of.
    destruct (decide (g = f)) as [->|Hne].
    + rewrite toggleFeature_elem_of, decide_True by done.
      destruct (decide (f ∈ selectedFeatures (this w))); tauto.
    + rewrite toggleFeature_elem_of. by rewrite decide_False.
Qed.

(** C8.  After [clearAllFilters] the selection is empty, the slot under
    the key is present and holds the stringified record with an empty
    [selectedFeatures] array, and [filteredBountyCards] is all of
    [bountyCards]. *)
Theorem clearAllFilters_spec w :
  let w' := clearAllFilters w in
  selectedFeatures (this w') = [] ∧
  sessionStorage w' !! bountyFilterState =
    Some (JSON_stringify {| fs_selectedFeatures := [];
                            fs_timestamp := Date_now w |}) ∧
  filteredBountyCards (this w') = bountyCards (this w') ∧
  bountyCards (this w') = bountyCards (this w).
Proof.
  intros w'. subst w'. unfold clearAllFilters.
  split; [done|]. split; [by rewrite saveFilterState_stored|]. done.
Qed.

End Properties.

(** * Further properties of the store *)

Section Further.
Context {engine : Platform}.

(** ** A load whose list fetch fails *)

Lemma list_failure_outcome (reply : FetchOutcome (option (list BountyCard))) :
  (∃ e, reply = Abrupt e) ∨
  (∃ response, reply = Normal response ∧ ok response = false) ∨
  (∃ response e, reply = Normal response ∧ ok response = true ∧
                 json response = Abrupt e) →
  ∃ e, list_outcome reply = Abrupt e.
Proof.
  intros [[e ->] | [(response & -> & Hok) | (response & e & -> & Hok & Hbody)]];
    cbn; rewrite ?Hok, ?Hbody; eauto.
Qed.

(** X1.  When the list fetch fails (the fetch rejects, the status is not
    a success, or reading the body rejects), the load settles normally
    with [bountyCards] exactly as it was before the call, [loading] false
    and [error] set; the list request is the only request issued, so no
    proofs are asked for. *)
Theorem loadWorkspaceBounties_list_failure net n w jwt :
  currentWorkspaceId (this w) ≠ "" →
  tribe_jwt <$> uiStore_meInfo w = Some jwt →
  jwt ≠ "" →
  let request := GET (bountyCardsUrl (currentWorkspaceId (this w))) jwt in
  let reply := bountyCards_reply net n request in
  (∃ e, reply = Abrupt e) ∨
  (∃ response, reply = Normal response ∧ ok response = false) ∨
  (∃ response e, reply = Normal response ∧ ok response = true ∧
                 json response = Abrupt e) →
  let r := run net n loadWorkspaceBounties w in
  settled r = Normal tt ∧
  bountyCards (this (final r)) = bountyCards (this w) ∧
  loading (this (final r)) = false ∧
  is_Some (error (this (final r))) ∧
  fetched r = [request].
Proof.
  intros Hws Hjwt Hj request reply Hfail r. subst r request reply.
  rewrite (run_load_ready net n w jwt) by (by try apply truthy_true).
  destruct (list_failure_outcome _ Hfail) as [e ->]. cbn.
  repeat split; eauto.
Qed.

(** X2.  The message a failed list fetch leaves in [error]: for a
    non-success status, ["Failed to load bounties: "] followed by the
    status text; for a rejected fetch or body, the message of the thrown
    [Error], or ["An unknown error occurred"] when what was thrown is not
    an [Error]. *)
Theorem loadWorkspaceBounties_error_message net n w jwt :
  currentWorkspaceId (this w) ≠ "" →
  tribe_jwt <$> uiStore_meInfo w = Some jwt →
  jwt ≠ "" →
  let reply :=
    bountyCards_reply net n
      (GET (bountyCardsUrl (currentWorkspaceId (this w))) jwt) in
  let r := run net n loadWorkspaceBounties w in
  (∀ response, reply = Normal response → ok response = false →
     error (this (final r)) =
     Some ("Failed to load bounties: " ++ statusText response)%string) ∧
  (∀ e, reply = Abrupt e ∨
        (∃ response, reply = Normal response ∧ ok response = true ∧
                     json response = Abrupt e) →
     error (this (final r)) =
     Some (if instanceof_Error e then message e
           else "An unknown error occurred")).
Proof.
  intros Hws Hjwt Hj reply r. subst r reply.
  rewrite (run_load_ready net n w jwt) by (by try apply truthy_true).
  split.
  - intros response -> Hok. cbn. by rewrite Hok.
  - intros e [-> | (response & -> & Hok & Hbody)]; cbn; [done|].
    by rewrite Hok, Hbody.
Qed.

(** ** What a load asks of the backend *)

(** X3.  Every request a load issues is a [GET] carrying the token in
    [x-jwt].  When the list fetch succeeds, the load issues the list
    request for the current workspace and then one proofs request per
    card, in card order, each addressed by the card's [id]: [1 + N]
    requests in all. *)
Theorem loadWorkspaceBounties_requests net n w jwt :
  currentWorkspaceId (this w) ≠ "" →
  tribe_jwt <$> uiStore_meInfo w = Some jwt →
  jwt ≠ "" →
  let r := run net n loadWorkspaceBounties w in
  Forall (fun req =>
            method req = "GET" ∧
            headers req = [("x-jwt", jwt); ("Content-Type", "application/json")])
    (fetched r) ∧
  (∀ text data,
     bountyCards_reply net n
       (GET (bountyCardsUrl (currentWorkspaceId (this w))) jwt) =
     Normal {| ok := true; statusText := text; json := Normal data |} →
     url <$> fetched r =
     bountyCardsUrl (currentWorkspaceId (this w)) ::
     ((fun bounty =>
         (TribesURL ++ "/gobounties/" ++ id bounty ++ "/proofs")%string)
        <$> default [] data) ∧
     length (fetched r) = 1 + length (default [] data)).
Proof.
  intros Hws Hjwt Hj r. subst r.
  rewrite (run_load_ready net n w jwt) by (by try apply truthy_true).
  split.
  - destruct (list_outcome _); cbn; [|by repeat constructor].
    constructor; [done|]. apply Forall_fmap, Forall_true. done.
  - intros text data ->. cbn. split.
    + f_equal. rewrite <- list_fmap_compose. done.
    + by rewrite length_fmap.
Qed.

(** X4.  A load writes [bountyCards], [loading] and [error] and nothing
    else: whatever the backend does, the workspace id, the selected
    features, the session storage and the signed-in user are after the
    run what they were before. *)
Theorem loadWorkspaceBounties_frame net n w :
  let r := run net n loadWorkspaceBounties w in
  currentWorkspaceId (this (final r)) = currentWorkspaceId (this w) ∧
  selectedFeatures (this (final r)) = selectedFeatures (this w) ∧
  sessionStorage (final r) = sessionStorage w ∧
  uiStore_meInfo (final r) = uiStore_meInfo w.
Proof.
  intros r. subst r.
  destruct (load_guard_cases w) as [Habsent | (Hws & jwt & Hjwt & Hj)].
  - by rewrite run_load_guard by by apply absent_fails_guard.
  - rewrite (run_load_ready net n w jwt) by (by try apply truthy_true).
    by destruct (list_outcome _).
Qed.

(** ** What the fan-out changes *)

(** X5.  A successful load changes nothing of a card but [pow]: the
    committed cards have, position by position, the [id], [status] and
    [features] of the response cards, and every one of them has [pow]
    set, whatever became of its proofs request. *)
Theorem loadWorkspaceBounties_only_pow net n w jwt text cards :
  currentWorkspaceId (this w) ≠ "" →
  tribe_jwt <$> uiStore_meInfo w = Some jwt →
  jwt ≠ "" →
  bountyCards_reply net n
    (GET (bountyCardsUrl (currentWorkspaceId (this w))) jwt) =
    Normal {| ok := true; statusText := text; json := Normal (Some cards) |} →
  let loaded := bountyCards (this (final (run net n loadWorkspaceBounties w))) in
  id <$> loaded = id <$> cards ∧
  status <$> loaded = status <$> cards ∧
  features <$> loaded = features <$> cards ∧
  Forall (fun card => is_Some (pow card)) loaded.
Proof.
  intros Hws Hjwt Hj Hlist loaded. subst loaded.
  rewrite (run_load_ready net n w jwt) by (by try apply truthy_true).
  rewrite Hlist. cbn.
  repeat split; try (rewrite fmap_imap; cbn; apply imap_const).
  apply Forall_lookup. intros i card Hcard.
  rewrite list_lookup_imap in Hcard.
  destruct (cards !! i); simplify_eq/=. eauto.
Qed.

(** X6.  A proofs response that succeeds with a body that is not an array
    ([null], an object, a number...) counts as no proofs: the card is
    committed with its [pow] field 0, whatever [pow] the response carried,
    and its other fields as in the response. *)
Theorem loadWorkspaceBounties_proofs_not_array
    net n w jwt text cards i card text' body :
  currentWorkspaceId (this w) ≠ "" →
  tribe_jwt <$> uiStore_meInfo w = Some jwt →
  jwt ≠ "" →
  bountyCards_reply net n
    (GET (bountyCardsUrl (currentWorkspaceId (this w))) jwt) =
    Normal {| ok := true; statusText := text; json := Normal (Some cards) |} →
  cards !! i = Some card →
  proofs_reply net (S n + i) (GET (proofsUrl card) jwt) =
    Normal {| ok := true; statusText := text'; json := Normal body |} →
  Array_isArray body = false →
  ∃ committed,
    bountyCards (this (final (run net n loadWorkspaceBounties w))) !! i =
    Some committed ∧
    pow committed = Some 0 ∧
    id committed = id card ∧
    status committed = status card ∧
    features committed = features card.
Proof.
  intros Hws Hjwt Hj Hlist Hcard Hreply Hbody.
  rewrite (run_load_ready net n w jwt) by (by try apply truthy_true).
  rewrite Hlist. cbn. rewrite list_lookup_imap, Hcard. cbn.
  cbn in Hreply. rewrite Hreply. cbn. rewrite Hbody.
  eexists. split; [reflexivity|]. done.
Qed.

(** ** Switching workspace, the other cases *)

(** X7.  [switchWorkspace] with the id the store already has does
    nothing: no field changes, nothing is fetched, and the promise is
    fulfilled at once. *)
Theorem switchWorkspace_same_id net n w :
  run net n (switchWorkspace (currentWorkspaceId (this w))) w =
  {| settled := Normal tt; final := w; fetched := []; observed := [] |}.
Proof.
  unfold switchWorkspace. cbn [run]. by rewrite String.eqb_refl.
Qed.

(** X8.  [switchWorkspace] to another id when the reload cannot start (the
    new id is empty, or nobody is signed in) still takes the new id and
    drops the cards; it then reports the missing precondition in [error]
    and fetches nothing. *)
Theorem switchWorkspace_without_precondition net n w newId :
  currentWorkspaceId (this w) ≠ newId →
  newId = "" ∨
  tribe_jwt <$> uiStore_meInfo w = None ∨
  tribe_jwt <$> uiStore_meInfo w = Some "" →
  let r := run net n (switchWorkspace newId) w in
  settled r = Normal tt ∧
  fetched r = [] ∧
  currentWorkspaceId (this (final r)) = newId ∧
  bountyCards (this (final r)) = [] ∧
  error (this (final r)) = Some "Missing workspace ID or authentication" ∧
  loading (this (final r)) = loading (this w).
Proof.
  intros Hnew Habsent r. subst r.
  rewrite run_switchWorkspace by done.
  rewrite run_load_guard; [done|].
  apply absent_fails_guard. cbn. tauto.
Qed.

(** X9.  [switchWorkspace] never touches the feature filter: for any new
    id and any behaviour of the backend, the selected features and the
    session storage are after the run what they were before, so the
    selection made in one workspace filters the cards of the next. *)
Theorem switchWorkspace_keeps_filter net n w newId :
  let r := run net n (switchWorkspace newId) w in
  selectedFeatures (this (final r)) = selectedFeatures (this w) ∧
  sessionStorage (final r) = sessionStorage w.
Proof.
  intros r. subst r.
  destruct (decide (currentWorkspaceId (this w) = newId)) as [<-|Hnew].
  - by rewrite switchWorkspace_same_id.
  - rewrite run_switchWorkspace by done.
    set (w' := set_this _ w).
    destruct (load_guard_cases w') as [Habsent | (Hws & jwt & Hjwt & Hj)].
    + by rewrite run_load_guard by by apply absent_fails_guard.
    + rewrite (run_load_ready net n w' jwt) by (by try apply truthy_true).
      by destruct (list_outcome _).
Qed.

(** ** Construction *)

Lemma advance_load_cases w :
  (advance loadWorkspaceBounties w =
   (set_this (set_error (Some "Missing workspace ID or authentication") (this w)) w,
    Settled (Normal tt)) ∧
   (currentWorkspaceId (this w) = "" ∨
    tribe_jwt <$> uiStore_meInfo w = None ∨
    tribe_jwt <$> uiStore_meInfo w = Some "")) ∨
  (∃ jwt k,
     advance loadWorkspaceBounties w =
     (set_this (announced (this w)) w,
      AwaitingBountyCards
        (GET (bountyCardsUrl (currentWorkspaceId (this w))) jwt) k) ∧
     currentWorkspaceId (this w) ≠ "" ∧
     tribe_jwt <$> uiStore_meInfo w = Some jwt ∧ jwt ≠ "").
Proof.
  destruct (load_guard_cases w) as [Habsent | (Hws & jwt & Hjwt & Hj)].
  - left. split; [|done].
    by rewrite advance_load_guard by by apply absent_fails_guard.
  - right.
    destruct (advance_load_ready w jwt) as [k Hk];
      [by apply truthy_true | done | by apply truthy_true |].
    by exists jwt, k.
Qed.

Lemma restoreFilterState_returns w w' :
  restoreFilterState w = Returns w' →
  ∃ l, w' = set_this (set_selectedFeatures l (this w)) w.
Proof.
  unfold restoreFilterState. intros Hret.
  assert (Hsame : w = set_this (set_selectedFeatures (selectedFeatures (this w))
                                  (this w)) w).
  { by destruct w as [[] ? ? ?]. }
  repeat match type of Hret with
         | context [match ?x with _ => _ end] => destruct x
         end; simplify_eq; eauto.
Qed.

(** X10.  What [new BountyCardStore(workspaceId)] leaves behind.  With a
    non-empty id and a signed-in user the list request for that workspace
    is in flight and the store, as long as restoring the filter did not
    throw, is loading, without error and without cards; otherwise nothing
    is in flight and the store carries the precondition error. *)
Theorem constructor_starts_load workspaceId env :
  let built := constructor workspaceId env in
  (∀ jwt, workspaceId ≠ "" → tribe_jwt <$> uiStore_meInfo env = Some jwt →
     jwt ≠ "" →
     awaited built.2 = Some (GET (bountyCardsUrl workspaceId) jwt) ∧
     ∀ w, built.1 = Returns w →
       loading (this w) = true ∧ error (this w) = None ∧
       bountyCards (this w) = [] ∧ currentWorkspaceId (this w) = workspaceId) ∧
  (workspaceId = "" ∨
   tribe_jwt <$> uiStore_meInfo env = None ∨
   tribe_jwt <$> uiStore_meInfo env = Some "" →
   awaited built.2 = None ∧
   ∀ w, built.1 = Returns w →
     loading (this w) = false ∧
     error (this w) = Some "Missing workspace ID or authentication" ∧
     bountyCards (this w) = [] ∧ currentWorkspaceId (this w) = workspaceId).
Proof.
  intros built. subst built. unfold constructor.
  set (w0 := set_this (new_fields workspaceId) env).
  destruct (advance_load_cases w0)
    as [[-> Habsent] | (jwt & k & -> & Hws & Hjwt & Hj)]; cbn in *.
  - split.
    + intros jwt' Hid Hjwt' Hj'. exfalso.
      destruct Habsent as [? | [? | ?]]; congruence.
    + intros _. split; [done|]. intros w Hret.
      apply restoreFilterState_returns in Hret as [l ->]. done.
  - split.
    + intros jwt' _ Hjwt' _. assert (jwt' = jwt) as -> by congruence.
      split; [done|]. intros w Hret.
      apply restoreFilterState_returns in Hret as [l ->]. done.
    + intros Habsent. exfalso.
      destruct Habsent as [? | [? | ?]]; congruence.
Qed.

Lemma mapM_as_string l : mapM as_string (JString <$> l) = Some l.
Proof.
  induction l as [|x l IH]; [done|]. cbn. by rewrite IH.
Qed.

(** X11.  The filter survives a reload of the page.  If the engine gives
    the saved record back, a store constructed after [saveFilterState],
    for whatever workspace, starts with the selection that was saved. *)
Theorem saved_filter_restored_at_construction w workspaceId :
  restorable {| fs_selectedFeatures := selectedFeatures (this w);
                fs_timestamp := Date_now w |} →
  ∃ w', (constructor workspaceId (saveFilterState w)).1 = Returns w' ∧
        selectedFeatures (this w') = selectedFeatures (this w).
Proof.
  intros (Hnonempty & members & Hparse & Hmember). unfold constructor.
  set (w0 := set_this (new_fields workspaceId) (saveFilterState w)).
  assert (Hstored : ∀ w1 p, advance loadWorkspaceBounties w0 = (w1, p) →
            sessionStorage w1 !! bountyFilterState =
            Some (JSON_stringify
                    {| fs_selectedFeatures := selectedFeatures (this w);
                       fs_timestamp := Date_now w |})).
  { intros w1 p Hturn.
    destruct (advance_load_cases w0) as [[Hk _] | (jwt & k & Hk & _)];
      rewrite Hk in Hturn; simplify_eq; cbn; apply lookup_insert_eq. }
  destruct (advance loadWorkspaceBounties w0) as [w1 p] eqn:Hturn.
  specialize (Hstored w1 p eq_refl). cbn.
  unfold restoreFilterState. rewrite Hstored.
  apply truthy_true in Hnonempty. rewrite Hnonempty, Hparse. cbn.
  rewrite Hmember. cbn. rewrite mapM_as_string. eauto.
Qed.

(** ** While a load is in flight *)


(** ** The status views *)

Lemma List_filter_sublist {A : Type} (f : A → bool) (l : list A) :
  List.filter f l `sublist_of` l.
Proof.
  induction l as [|x l IH]; cbn; [constructor|].
  destruct (f x); by constructor.
Qed.

Lemma elem_of_List_filter {A : Type} (f : A → bool) (l : list A) x :
  x ∈ List.filter f l ↔ x ∈ l ∧ f x = true.
Proof. rewrite !list_elem_of_In. apply filter_In. Qed.

Ltac bubble :=
  first [ symmetry; apply Permutation_middle
        | etrans; [apply Permutation_app; [reflexivity | bubble]
                  | symmetry; apply Permutation_middle] ].

Lemma status_views_of_list (l : list BountyCard) :
  List.filter (fun card => bool_decide (status card = TODO)) l ++
  List.filter (fun card => bool_decide (status card = IN_PROGRESS)) l ++
  List.filter (fun card => bool_decide (status card = IN_REVIEW)) l ++
  List.filter (fun card => bool_decide (status card = COMPLETED)) l ++
  List.filter (fun card => bool_decide (status card = PAID)) l ≡ₚ l.
Proof.
  induction l as [|card l IH]; [done|]. cbn [List.filter].
  etrans; [|apply perm_skip, IH].
  destruct (status card); repeat case_bool_decide; try congruence; cbn [app];
    first [reflexivity | bubble].
Qed.

(** X13.  The five status views partition the cards: taken together,
    [todoItems], [assignedItems], [reviewItems], [completedItems] and
    [paidItems] hold every card of [bountyCards] exactly as often as
    [bountyCards] does (a card's status being one of the five of the data
    model). *)
Theorem status_views_partition s :
  todoItems s ++ assignedItems s ++ reviewItems s ++ completedItems s ++
  paidItems s ≡ₚ bountyCards s.
Proof. apply status_views_of_list. Qed.

(** X14.  Each status view lists cards of [bountyCards] in the order of
    [bountyCards], and no card is in two views. *)
Theorem status_views_ordered_disjoint s :
  let views := [todoItems s; assignedItems s; reviewItems s;
                completedItems s; paidItems s] in
  Forall (fun view => view `sublist_of` bountyCards s) views ∧
  ∀ i j view view' card,
    views !! i = Some view → views !! j = Some view' →
    card ∈ view → card ∈ view' → i = j.
Proof.
  intros views. subst views. split.
  - repeat constructor; apply List_filter_sublist.
  - assert (Hstatus : ∀ i view card,
      [todoItems s; assignedItems s; reviewItems s;
       completedItems s; paidItems s] !! i = Some view →
      card ∈ view →
      [TODO; IN_PROGRESS; IN_REVIEW; COMPLETED; PAID] !! i = Some (status card)).
    { intros i view card Hview Hcard.
      destruct i as [|[|[|[|[|i]]]]]; simplify_eq/=;
        apply elem_of_List_filter in Hcard as [_ Hst];
        apply bool_decide_eq_true in Hst; by rewrite Hst. }
    intros i j view view' card Hi Hj Hcard Hcard'.
    pose proof (Hstatus i view card Hi Hcard) as Hsi.
    pose proof (Hstatus j view' card Hj Hcard') as Hsj.
    destruct (status card);
      destruct i as [|[|[|[|[|i]]]]]; simplify_eq/=;
      destruct j as [|[|[|[|[|j]]]]]; simplify_eq/=; done.
Qed.

(** ** More on the feature filter *)

(** X15.  [filteredBountyCards] only ever drops cards: it lists cards of
    [bountyCards] in the order of [bountyCards], neither adding, repeating
    nor reordering any. *)
Theorem filteredBountyCards_sublist s :
  filteredBountyCards s `sublist_of` bountyCards s.
Proof.
  unfold filteredBountyCards. destruct (Nat.eqb _ _); [done|].
  apply List_filter_sublist.
Qed.

Lemma includes_ext (l l' : list string) x :
  (∀ f, f ∈ l ↔ f ∈ l') → includes l x = includes l' x.
Proof. intros Hsame. unfold includes. apply bool_decide_ext, Hsame. Qed.

Lemma filtered_selection_as_set s s' :
  bountyCards s = bountyCards s' →
  (∀ f, f ∈ selectedFeatures s ↔ f ∈ selectedFeatures s') →
  filteredBountyCards s = filteredBountyCards s'.
Proof.
  intros Hcards Hsame. unfold filteredBountyCards. rewrite Hcards.
  destruct (selectedFeatures s) as [|f l] eqn:Hs;
    destruct (selectedFeatures s') as [|f' l'] eqn:Hs'; cbn [length Nat.eqb].
  - done.
  - exfalso. eapply not_elem_of_nil, Hsame. left.
  - exfalso. eapply not_elem_of_nil, Hsame. left.
  - apply filter_ext. intros card.
    rewrite (includes_ext (f :: l) (f' :: l') "no-feature") by done.
    destruct (features_uuid card) as [u|]; [|done].
    by rewrite (includes_ext (f :: l) (f' :: l') u) by done.
Qed.

(** X16.  The filter reads the selection as a set: two stores with the
    same cards whose selections have the same members, in whatever order
    and with whatever repetitions, show the same filtered cards. *)
Theorem filteredBountyCards_selection_as_set s s' :
  bountyCards s = bountyCards s' →
  (∀ f, f ∈ selectedFeatures s ↔ f ∈ selectedFeatures s') →
  filteredBountyCards s = filteredBountyCards s'.
Proof. apply filtered_selection_as_set. Qed.

Lemma toggleFeature_twice_elem_of f w g :
  g ∈ selectedFeatures (this (toggleFeature f (toggleFeature f w))) ↔
  g ∈ selectedFeatures (this w).
Proof.
  rewrite toggleFeature_elem_of.
  destruct (decide (g = f)) as [->|Hne].
  - rewrite toggleFeature_elem_of, decide_True by done.
    destruct (decide (f ∈ selectedFeatures (this w))); tauto.
  - rewrite toggleFeature_elem_of. by rewrite decide_False.
Qed.

(** X17.  Toggling the same feature twice leaves the filtered view as it
    was, although the selection list itself may come back reordered. *)
Theorem toggleFeature_twice_same_view f w :
  filteredBountyCards (this (toggleFeature f (toggleFeature f w))) =
  filteredBountyCards (this w).
Proof.
  apply filtered_selection_as_set.
  - unfold toggleFeature. by repeat destruct (includes _ _).
  - intros g. apply toggleFeature_twice_elem_of.
Qed.

Lemma filter_sublist_mono {A : Type} (P Q : A → Prop)
    `{∀ x, Decision (P x)} `{∀ x, Decision (Q x)} (l : list A) :
  (∀ x, P x → Q x) → filter P l `sublist_of` filter Q l.
Proof.
  intros HPQ. induction l as [|x l IH]; [done|].
  rewrite !filter_cons. destruct (decide (P x)) as [HP|HP].
  - rewrite decide_True by auto. by constructor.
  - destruct (decide (Q x)); [by constructor|done].
Qed.

(** X18.  Among non-empty selections the filter is monotone: selecting
    more features never hides a card that was shown.  (The empty
    selection is the exception built into the getter: it shows every
    card.) *)
Theorem filteredBountyCards_monotone s s' :
  bountyCards s = bountyCards s' →
  selectedFeatures s ≠ [] →
  (∀ f, f ∈ selectedFeatures s → f ∈ selectedFeatures s') →
  filteredBountyCards s `sublist_of` filteredBountyCards s'.
Proof.
  intros Hcards Hne Hsub. unfold filteredBountyCards. rewrite Hcards.
  destruct (selectedFeatures s) as [|f l] eqn:Hs; [done|].
  destruct (selectedFeatures s') as [|f' l'] eqn:Hs'.
  { exfalso. eapply not_elem_of_nil, Hsub. left. }
  cbn [length Nat.eqb].
  rewrite (List_filter_decide _ (included (f :: l)))
    by apply filter_callback_included.
  rewrite (List_filter_decide _ (included (f' :: l')))
    by apply filter_callback_included.
  apply filter_sublist_mono.
  intros card [[Hnone Hin] | (u & Hsome & Hin)]; [left|right]; eauto.
Qed.


(** ** More on toggling *)

(** X20.  [toggleFeature] keeps the selection free of repetitions: if no
    feature is listed twice before the call, none is after it. *)
Theorem toggleFeature_NoDup f w :
  NoDup (selectedFeatures (this w)) →
  NoDup (selectedFeatures (this (toggleFeature f w))).
Proof.
  intros Hnodup. rewrite toggleFeature_selected.
  destruct (includes _ _) eqn:Hin.
  - by apply NoDup_filter.
  - apply NoDup_app. split; [done|]. split; [|apply NoDup_singleton].
    intros g Hg ->%list_elem_of_singleton.
    apply includes_true in Hg. congruence.
Qed.

Lemma filter_ne_absent (f : string) (l : list string) :
  f ∉ l → filter (fun g => g ≠ f) l = l.
Proof.
  intros Hout. induction l as [|g l IH]; [done|].
  apply not_elem_of_cons in Hout as [Hne Hout].
  rewrite filter_cons, decide_True by done. by rewrite IH.
Qed.

(** X21.  Toggling a feature that is not selected appends it at the end
    of the selection, and toggling it again gives back the very list
    there was.  Toggling a selected feature removes every occurrence of
    it, however often it was listed, and keeps the others in their
    order. *)
Theorem toggleFeature_lists f w :
  let selected := selectedFeatures (this w) in
  (f ∉ selected →
   selectedFeatures (this (toggleFeature f w)) = selected ++ [f] ∧
   selectedFeatures (this (toggleFeature f (toggleFeature f w))) = selected) ∧
  (f ∈ selected →
   (f ∉ selectedFeatures (this (toggleFeature f w))) ∧
   (selectedFeatures (this (toggleFeature f w)) `sublist_of` selected) ∧
   ∀ g, g ≠ f →
     filter (fun x => x = g) (selectedFeatures (this (toggleFeature f w))) =
     filter (fun x => x = g) selected).
Proof.
  intros selected. subst selected. split.
  - intros Hout.
    assert (Hfirst : selectedFeatures (this (toggleFeature f w)) =
                     selectedFeatures (this w) ++ [f]).
    { rewrite toggleFeature_selected.
      destruct (includes _ _) eqn:Hin; [|done].
      by apply includes_true in Hin. }
    split; [done|].
    rewrite toggleFeature_selected, Hfirst.
    destruct (includes _ _) eqn:Hin.
    + rewrite filter_app, filter_ne_absent by done.
      rewrite filter_cons, decide_False by (by intros ?).
      by rewrite app_nil_r.
    + exfalso. assert (includes (selectedFeatures (this w) ++ [f]) f = true).
      { apply includes_true, elem_of_app. right. by left. }
      congruence.
  - intros Hin. apply includes_true in Hin as Hinc.
    rewrite toggleFeature_selected, Hinc. split; [|split].
    + intros [Hne _]%list_elem_of_filter. done.
    + apply sublist_filter.
    + intros g Hne. rewrite list_filter_filter.
      apply list_filter_iff. intros x. split; [tauto|].
      intros ->. done.
Qed.

(** X22.  [toggleFeature] and [clearAllFilters] write the selection and
    the one storage slot and nothing else: the cards, the workspace id,
    [loading], [error] and every other key of the session storage are
    what they were. *)
Theorem filter_actions_frame f w :
  Forall (fun w' =>
    bountyCards (this w') = bountyCards (this w) ∧
    currentWorkspaceId (this w') = currentWorkspaceId (this w) ∧
    loading (this w') = loading (this w) ∧
    error (this w') = error (this w) ∧
    ∀ key, key ≠ bountyFilterState →
           sessionStorage w' !! key = sessionStorage w !! key)
    [toggleFeature f w; clearAllFilters w].
Proof.
  repeat constructor; unfold toggleFeature, clearAllFilters;
    try (by destruct (includes _ _)).
  - intros key Hkey. destruct (includes _ _); cbn;
      by rewrite lookup_insert_ne.
  - intros key Hkey. cbn.
    by rewrite lookup_insert_ne, lookup_delete_ne.
Qed.

End Further.

(** * useUserInfo *)

Section UserInfoProperties.
Import UserInfo.

Lemma string_app_cancel (p x y : string) :
  (p ++ x)%string = (p ++ y)%string → x = y.
Proof.
  induction p as [|c p IH]; cbn; [done|]. intros [= Heq]. by apply IH.
Qed.

(** X23.  For a given host, the QR string determines the public key: two
    keys with the same QR string are the same key. *)
Theorem makeQR_injective host pubkey pubkey' :
  makeQR host pubkey = makeQR host pubkey' → pubkey = pubkey'.
Proof.
  unfold makeQR. intros Heq.
  repeat apply string_app_cancel in Heq. done.
Qed.

(** X24.  [userImg] is never empty: it is the person's [img] when there
    is a person with a non-empty [img], and the placeholder picture in
    every other case (no person, no [img], empty [img]). *)
Theorem userImg_never_empty person :
  userImg person ≠ "" ∧
  (∀ p s, person = Some p → img p = Some s → s ≠ "" → userImg person = s) ∧
  (person = None ∨
   (∃ p, person = Some p ∧ (img p = None ∨ img p = Some "")) →
   userImg person = defaultPic).
Proof.
  unfold userImg, or_else, field. split; [|split].
  - destruct person as [p|]; [|done].
    destruct (img p) as [s|]; [|done].
    destruct (truthy s) eqn:Hs; [|done]. unfold truthy in Hs.
    destruct (String.eqb_spec s ""); done.
  - intros p s -> -> Hs. unfold truthy.
    by destruct (String.eqb_spec s "").
  - intros [-> | (p & -> & [-> | ->])]; done.
Qed.

(** X25.  [goBack] navigates exactly once, as its last call, and by
    replacing the history entry, never by pushing one; the target is the
    path stored under ["key"] when there is one and it is not empty, and
    ["/"] otherwise, so it is never the empty path. *)
Theorem goBack_navigates_once localStorage :
  ∃ calls path,
    goBack localStorage = calls ++ [history_replace path] ∧
    Forall (fun c => navigation c = None) calls ∧
    path ≠ "" ∧
    (localStorage !! "key" = Some path ∨
     path = "/" ∧ (localStorage !! "key" = None ∨
                   localStorage !! "key" = Some "")).
Proof.
  unfold goBack. destruct (localStorage !! "key") as [stored|] eqn:Hkey.
  - destruct (truthy stored) eqn:Hs.
    + exists [ui_setSelectingPerson 0; ui_setSearchText ""], stored.
      split; [done|]. split; [by repeat constructor|].
      split; [|by left]. unfold truthy in Hs.
      by destruct (String.eqb_spec stored "").
    + exists [ui_setSelectingPerson 0], "/".
      split; [done|]. split; [by repeat constructor|]. split; [done|].
      right. split; [done|]. right. unfold truthy in Hs.
      destruct (String.eqb_spec stored ""); [by subst|done].
  - exists [ui_setSelectingPerson 0], "/".
    split; [done|]. split; [by repeat constructor|]. split; [done|].
    right. split; [done|]. by left.
Qed.

End UserInfoProperties.

(** * Worked examples *)

Section Examples.
#[local] Existing Instance example_platform.

(** [JSON_text] on the texts the store writes and on a few it does not. *)
Example stringify_then_parse :
  JSON_text.parse
    (JSON_text.stringify {| fs_selectedFeatures := ["f1"; "no-feature"];
                            fs_timestamp := 1700000000000 |}) =
  Normal (JObject [("selectedFeatures", JArray [JString "f1"; JString "no-feature"]);
                   ("timestamp", JNumber 1700000000000 0)]).
Proof. vm_compute. reflexivity. Qed.

Example parse_rejects :
  JSON_text.parse "not json" = Abrupt JSON_text.SyntaxError ∧
  JSON_text.parse "" = Abrupt JSON_text.SyntaxError ∧
  JSON_text.parse "[1,]" = Abrupt JSON_text.SyntaxError ∧
  JSON_text.parse "{} {}" = Abrupt JSON_text.SyntaxError ∧
  JSON_text.parse " null " = Normal JNull ∧
  JSON_text.parse "[1.5e2, true, []]" =
    Normal (JArray [JNumber 15 1; JBool true; JArray []]).
Proof. vm_compute. repeat split. Qed.

(** These texts are rejected by the grammar, not for want of fuel. *)
Example rejected_at_any_fuel fuel :
  JSON_text.value fuel "not json" = None ∧
  JSON_text.value fuel "" = None ∧
  JSON_text.value fuel "[1,]" = None.
Proof. destruct fuel as [|[|[|[|fuel]]]]; repeat split. Qed.

Example escapes_decoded :
  let q := String JSON_text.dquote "" in
  let b := String JSON_text.backslash "" in
  JSON_text.parse
    (q ++ b ++ "u0041" ++ b ++ "u00e9" ++ b ++ "ud83d" ++ b ++ "ude00" ++
     b ++ "n" ++ q) =
  Normal (JString ("Aé😀" ++ String "010"%char "")).
Proof. vm_compute. reflexivity. Qed.

(** A load, run: three cards, the proofs of the third failing with a
    500. *)
Example load_three_cards :
  let r := run three_cards 0 loadWorkspaceBounties signed_in in
  settled r = Normal tt ∧
  bountyCards (this (final r)) =
    [with_pow card_b1 2; with_pow card_b2 0; with_pow card_b3 0] ∧
  loading (this (final r)) = false ∧
  error (this (final r)) = None ∧
  url <$> fetched r =
    ["https://tribes.example/gobounties/bounty-cards?workspace_uuid=ws1";
     "https://tribes.example/gobounties/b1/proofs";
     "https://tribes.example/gobounties/b2/proofs";
     "https://tribes.example/gobounties/b3/proofs"].
Proof. vm_compute. repeat split. Qed.

Example load_unreachable :
  let r := run unreachable 0 loadWorkspaceBounties signed_in in
  settled r = Normal tt ∧
  bountyCards (this (final r)) = [] ∧
  loading (this (final r)) = false ∧
  error (this (final r)) = Some "Failed to fetch".
Proof. vm_compute. repeat split. Qed.

Example toggle_f1_twice :
  selectedFeatures (this (toggleFeature "f1" signed_in)) = ["f1"] ∧
  selectedFeatures (this (toggleFeature "f1" (toggleFeature "f1" signed_in))) = [].
Proof. vm_compute. split; reflexivity. Qed.

Example no_feature_filter :
  filteredBountyCards (this (toggleFeature "no-feature" showing_cards)) =
  [card_b2; {| id := "b4"; status := TODO; features := Some {| uuid := "" |};
               pow := None |}].
Proof. vm_compute. reflexivity. Qed.

(** A card with an empty [uuid] has no feature identifier: selecting the
    empty string does not select it. *)
Example empty_uuid_is_no_feature :
  filteredBountyCards (this (toggleFeature "" showing_cards)) = [].
Proof. vm_compute. reflexivity. Qed.

Example clear_then_restore :
  let w := clearAllFilters (toggleFeature "f1" signed_in) in
  sessionStorage w !! bountyFilterState =
    Some (JSON_text.stringify {| fs_selectedFeatures := [];
                                 fs_timestamp := 1700000000000 |}) ∧
  restoreFilterState w = Returns w.
Proof. vm_compute. split; reflexivity. Qed.

(** ** The theorems at concrete inputs *)

Lemma loadWorkspaceBounties_missing_precondition_witness :
  tribe_jwt <$> uiStore_meInfo signed_out = None ∧
  let r := run three_cards 0 loadWorkspaceBounties signed_out in
  settled r = Normal tt ∧
  fetched r = [] ∧
  error (this (final r)) = Some "Missing workspace ID or authentication" ∧
  bountyCards (this (final r)) = [] ∧
  loading (this (final r)) = false.
Proof.
  split; [reflexivity|].
  destruct (loadWorkspaceBounties_missing_precondition three_cards 0 signed_out)
    as (Hsettled & Hfetched & _ & Hthis & Hcards & Hloading).
  - right. left. reflexivity.
  - split; [exact Hsettled|].
    split; [exact Hfetched|].
    split; [rewrite Hthis; reflexivity|].
    split; [exact Hcards|].
    exact Hloading.
Defined.

Lemma loadWorkspaceBounties_success_witness :
  let r := run one_proof_each 0 loadWorkspaceBounties signed_in in
  settled r = Normal tt ∧
  length (bountyCards (this (final r))) = 2 ∧
  bountyCards (this (final r)) =
    [{| id := "b1"; status := TODO; features := Some {| uuid := "f1" |};
        pow := Some 1 |};
     {| id := "b2"; status := IN_PROGRESS; features := None;
        pow := Some 1 |}].
Proof.
  destruct (loadWorkspaceBounties_success one_proof_each 0 signed_in
              "token" "OK" [card_b1; card_b2]
              [[proof_record 1]; [proof_record 1]])
    as (Hsettled & Hcards & Hlength & _).
  - discriminate.
  - reflexivity.
  - discriminate.
  - reflexivity.
  - intros [|[|i]] card Hcard; simplify_eq/=; eauto.
  - split; [exact Hsettled|].
    split; [exact Hlength|].
    exact Hcards.
Defined.

Lemma loadWorkspaceBounties_proofs_failure_witness :
  let r := run three_cards 0 loadWorkspaceBounties signed_in in
  settled r = Normal tt ∧
  error (this (final r)) = None ∧
  length (bountyCards (this (final r))) = 3 ∧
  (∃ committed, bountyCards (this (final r)) !! 0 = Some committed ∧
                id committed = "b1" ∧ pow committed = Some 2) ∧
  (∃ committed, bountyCards (this (final r)) !! 2 = Some committed ∧
                id committed = "b3" ∧ pow card_b3 = Some 7 ∧
                pow committed = Some 0).
Proof.
  destruct (loadWorkspaceBounties_proofs_failure three_cards 0 signed_in
              "token" "OK" [card_b1; card_b2; card_b3])
    as (Hsettled & Herror & Hlength & Hpow).
  - discriminate.
  - reflexivity.
  - discriminate.
  - reflexivity.
  - split; [exact Hsettled|].
    split; [exact Herror|].
    split; [exact Hlength|].
    split.
    + destruct (Hpow 0 card_b1 eq_refl)
        as (committed & Hcommitted & Hid & _ & _ & _ & Hok).
      exists committed. split; [exact Hcommitted|]. split; [exact Hid|].
      exact (Hok "OK" [proof_record 1; proof_record 2] eq_refl).
    + destruct (Hpow 2 card_b3 eq_refl)
        as (committed & Hcommitted & Hid & _ & _ & Hfail & _).
      exists committed. split; [exact Hcommitted|]. split; [exact Hid|].
      split; [reflexivity|].
      apply Hfail. right. left. eexists. split; reflexivity.
Defined.

Lemma loadWorkspaceBounties_null_body_witness :
  let r := run null_list 0 loadWorkspaceBounties signed_in in
  settled r = Normal tt ∧
  bountyCards (this (final r)) = [] ∧
  fetched r = [GET (bountyCardsUrl "ws1") "token"] ∧
  error (this (final r)) = None.
Proof.
  apply (loadWorkspaceBounties_null_body null_list 0 signed_in "token" "OK").
  - discriminate.
  - reflexivity.
  - discriminate.
  - reflexivity.
Defined.

Lemma loadWorkspaceBounties_loading_witness :
  loading (this (final (run unreachable 0 loadWorkspaceBounties signed_in)))
  = false ∧
  loading (this (final (run unreachable 0 loadWorkspaceBounties signed_out)))
  = loading (this signed_out).
Proof.
  split.
  - destruct (loadWorkspaceBounties_loading unreachable 0 signed_in)
      as (_ & Hready & _ & _).
    apply Hready; [discriminate|]. exists "token". split; [reflexivity|discriminate].
  - destruct (loadWorkspaceBounties_loading unreachable 0 signed_out)
      as (_ & _ & Habsent & _).
    apply Habsent. right. left. reflexivity.
Defined.

Lemma failures_become_state_witness :
  restoreFilterState signed_in = Returns signed_in ∧
  (∃ w, (constructor "ws1" signed_in).1 = Returns w ∧
        selectedFeatures (this w) = []) ∧
  (∃ e, restoreFilterState corrupt_filter = Throws e) ∧
  (∃ e, (constructor "ws2" corrupt_filter).1 = Throws e).
Proof.
  destruct failures_become_state
    as (_ & _ & Hnone & Hnew & Hthrows & Hconstructor).
  split; [|split; [|split]].
  - apply Hnone. reflexivity.
  - apply Hnew. reflexivity.
  - apply (Hthrows corrupt_filter "not json"); [reflexivity|].
    split; [discriminate|]. left. eexists. vm_compute. reflexivity.
  - apply (Hconstructor "ws2" corrupt_filter "not json"); [reflexivity|].
    split; [discriminate|]. left. eexists. vm_compute. reflexivity.
Defined.

Lemma toggleFeature_symmetric_difference_witness :
  "f2" ∈ selectedFeatures (this (toggleFeature "f1" (toggleFeature "f2" signed_in)))
  ↔ "f2" ∈ selectedFeatures (this (toggleFeature "f2" signed_in)).
Proof.
  destruct (toggleFeature_symmetric_difference "f1" (toggleFeature "f2" signed_in))
    as (_ & Hother & _ & _).
  apply Hother. discriminate.
Defined.

Lemma switchWorkspace_clears_then_reloads_witness :
  let turn := advance (switchWorkspace "ws2") showing_cards in
  let r := run three_cards 0 (switchWorkspace "ws2") showing_cards in
  currentWorkspaceId (this turn.1) = "ws2" ∧
  bountyCards (this turn.1) = [] ∧
  awaited turn.2 = Some (GET (bountyCardsUrl "ws2") "token") ∧
  Forall (fun s => currentWorkspaceId s = "ws2" ∧ bountyCards s = [])
    (observed r) ∧
  currentWorkspaceId (this (final r)) = "ws2".
Proof.
  destruct (switchWorkspace_clears_then_reloads three_cards 0 showing_cards "ws2")
    as (Hid & Hempty & Hstarted & Hobserved & Hfinal & _).
  - discriminate.
  - split; [exact Hid|].
    split; [exact Hempty|].
    split; [apply Hstarted; [discriminate | reflexivity | discriminate]|].
    split; [exact Hobserved|].
    exact Hfinal.
Defined.

(** ** The further properties at concrete inputs *)

Lemma loadWorkspaceBounties_list_failure_witness :
  let r := run list_500 0 loadWorkspaceBounties showing_cards in
  settled r = Normal tt ∧
  bountyCards (this (final r)) = bountyCards (this showing_cards) ∧
  loading (this (final r)) = false ∧
  is_Some (error (this (final r))) ∧
  fetched r = [GET (bountyCardsUrl "ws1") "token"].
Proof.
  apply (loadWorkspaceBounties_list_failure list_500 0 showing_cards "token").
  - discriminate.
  - reflexivity.
  - discriminate.
  - right. left. eexists. split; reflexivity.
Defined.

Lemma loadWorkspaceBounties_error_message_witness :
  error (this (final (run list_500 0 loadWorkspaceBounties signed_in))) =
    Some "Failed to load bounties: Internal Server Error" ∧
  error (this (final (run unreachable 0 loadWorkspaceBounties signed_in))) =
    Some "Failed to fetch".
Proof.
  split.
  - destruct (loadWorkspaceBounties_error_message list_500 0 signed_in "token")
      as [Hhttp _]; [discriminate | reflexivity | discriminate |].
    exact (Hhttp _ eq_refl eq_refl).
  - destruct (loadWorkspaceBounties_error_message unreachable 0 signed_in "token")
      as [_ Hthrown]; [discriminate | reflexivity | discriminate |].
    exact (Hthrown (ErrorObject "TypeError" "Failed to fetch") (or_introl eq_refl)).
Defined.

Lemma loadWorkspaceBounties_requests_witness :
  let r := run three_cards 0 loadWorkspaceBounties signed_in in
  url <$> fetched r =
    ["https://tribes.example/gobounties/bounty-cards?workspace_uuid=ws1";
     "https://tribes.example/gobounties/b1/proofs";
     "https://tribes.example/gobounties/b2/proofs";
     "https://tribes.example/gobounties/b3/proofs"] ∧
  length (fetched r) = 4.
Proof.
  destruct (loadWorkspaceBounties_requests three_cards 0 signed_in "token")
    as [_ Hurls]; [discriminate | reflexivity | discriminate |].
  exact (Hurls "OK" (Some [card_b1; card_b2; card_b3]) eq_refl).
Defined.

Lemma loadWorkspaceBounties_only_pow_witness :
  let loaded :=
    bountyCards (this (final (run three_cards 0 loadWorkspaceBounties signed_in))) in
  id <$> loaded = ["b1"; "b2"; "b3"] ∧
  status <$> loaded = [TODO; IN_PROGRESS; PAID] ∧
  features <$> loaded = [Some {| uuid := "f1" |}; None; Some {| uuid := "f2" |}] ∧
  Forall (fun card => is_Some (pow card)) loaded.
Proof.
  apply (loadWorkspaceBounties_only_pow three_cards 0 signed_in "token" "OK"
           [card_b1; card_b2; card_b3]).
  - discriminate.
  - reflexivity.
  - discriminate.
  - reflexivity.
Defined.

Lemma loadWorkspaceBounties_proofs_not_array_witness :
  pow card_b3 = Some 7 ∧
  ∃ committed,
    bountyCards
      (this (final (run proofs_as_object 0 loadWorkspaceBounties signed_in)))
      !! 0 = Some committed ∧
    pow committed = Some 0 ∧
    id committed = "b3" ∧
    status committed = PAID ∧
    features committed = Some {| uuid := "f2" |}.
Proof.
  split; [reflexivity|].
  apply (loadWorkspaceBounties_proofs_not_array proofs_as_object 0 signed_in
           "token" "OK" [card_b3] 0 card_b3 "OK"
           (JObject [("proofs", JArray [proof_record 1])])).
  - discriminate.
  - reflexivity.
  - discriminate.
  - reflexivity.
  - reflexivity.
  - reflexivity.
  - reflexivity.
Defined.

Lemma switchWorkspace_without_precondition_witness :
  let w := set_uiStore_meInfo None showing_cards in
  let r := run three_cards 0 (switchWorkspace "ws2") w in
  settled r = Normal tt ∧
  fetched r = [] ∧
  currentWorkspaceId (this (final r)) = "ws2" ∧
  bountyCards (this (final r)) = [] ∧
  error (this (final r)) = Some "Missing workspace ID or authentication" ∧
  loading (this (final r)) = false.
Proof.
  apply (switchWorkspace_without_precondition three_cards 0
           (set_uiStore_meInfo None showing_cards) "ws2").
  - discriminate.
  - right. left. reflexivity.
Defined.

Lemma constructor_starts_load_witness :
  awaited (constructor "ws1" signed_in).2 =
    Some (GET (bountyCardsUrl "ws1") "token") ∧
  awaited (constructor "ws1" signed_out).2 = None.
Proof.
  split.
  - destruct (constructor_starts_load "ws1" signed_in) as [Hready _].
    destruct (Hready "token") as [Hawaited _];
      [discriminate | reflexivity | discriminate |].
    exact Hawaited.
  - destruct (constructor_starts_load "ws1" signed_out) as [_ Habsent].
    destruct Habsent as [Hawaited _]; [right; left; reflexivity|].
    exact Hawaited.
Defined.

Lemma saved_filter_restored_at_construction_witness :
  ∃ w', (constructor "ws2" (saveFilterState f1_selected)).1 = Returns w' ∧
        selectedFeatures (this w') = ["f1"].
Proof.
  apply (saved_filter_restored_at_construction f1_selected "ws2").
  split.
  - vm_compute. discriminate.
  - eexists. split; vm_compute; reflexivity.
Defined.


Lemma status_views_ordered_disjoint_witness :
  card_b1 ∈ todoItems (this showing_cards) ∧
  card_b1 ∉ paidItems (this showing_cards).
Proof.
  assert (Htodo : card_b1 ∈ todoItems (this showing_cards)).
  { vm_compute. left. }
  split; [exact Htodo|]. intros Hpaid.
  destruct (status_views_ordered_disjoint (this showing_cards)) as [_ Hdisjoint].
  pose proof (Hdisjoint 0 4 _ _ card_b1 eq_refl eq_refl Htodo Hpaid) as Heq.
  discriminate Heq.
Defined.

Lemma filteredBountyCards_selection_as_set_witness :
  filteredBountyCards (set_selectedFeatures ["f1"; "f2"] (this showing_cards)) =
  filteredBountyCards (set_selectedFeatures ["f2"; "f1"; "f2"] (this showing_cards)).
Proof.
  apply filteredBountyCards_selection_as_set.
  - reflexivity.
  - intros f. cbn. rewrite !elem_of_cons. tauto.
Defined.

Lemma filteredBountyCards_monotone_witness :
  filteredBountyCards (set_selectedFeatures ["f1"] (this showing_cards))
  `sublist_of`
  filteredBountyCards (set_selectedFeatures ["no-feature"; "f1"] (this showing_cards)).
Proof.
  apply filteredBountyCards_monotone.
  - reflexivity.
  - discriminate.
  - intros f. cbn. rewrite !elem_of_cons. tauto.
Defined.

Lemma toggleFeature_NoDup_witness :
  NoDup (selectedFeatures (this (toggleFeature "f2" f1_selected))).
Proof.
  apply toggleFeature_NoDup. vm_compute. apply NoDup_singleton.
Defined.

Lemma toggleFeature_lists_witness :
  selectedFeatures (this (toggleFeature "f2" f1_selected)) = ["f1"; "f2"] ∧
  selectedFeatures (this (toggleFeature "f2" (toggleFeature "f2" f1_selected))) =
    ["f1"] ∧
  selectedFeatures (this f1_listed_twice) = ["f1"; "f2"; "f1"] ∧
  ("f1" ∉ selectedFeatures (this (toggleFeature "f1" f1_listed_twice))) ∧
  (selectedFeatures (this (toggleFeature "f1" f1_listed_twice))
     `sublist_of` ["f1"; "f2"; "f1"]) ∧
  filter (fun x => x = "f2")
    (selectedFeatures (this (toggleFeature "f1" f1_listed_twice))) = ["f2"].
Proof.
  destruct (toggleFeature_lists "f2" f1_selected) as [Habsent _].
  destruct Habsent as [Hfirst Hsecond].
  { vm_compute. intros Hin. apply list_elem_of_singleton in Hin. discriminate Hin. }
  destruct (toggleFeature_lists "f1" f1_listed_twice) as [_ Hpresent].
  destruct Hpresent as (Hgone & Hsub & Hothers).
  { vm_compute. left. }
  split; [exact Hfirst|]. split; [exact Hsecond|].
  split; [reflexivity|]. split; [exact Hgone|]. split; [exact Hsub|].
  rewrite (Hothers "f2") by discriminate. reflexivity.
Defined.

Lemma filter_actions_frame_witness :
  sessionStorage (toggleFeature "f1" corrupt_filter) !! "other" =
  sessionStorage corrupt_filter !! "other".
Proof.
  pose proof (filter_actions_frame "f1" corrupt_filter) as Hframe.
  apply Forall_cons in Hframe as [(_ & _ & _ & _ & Hkeys) _].
  apply Hkeys. discriminate.
Defined.

Lemma makeQR_injective_witness :
  UserInfo.makeQR "people.example" "02abc" =
    "sphinx.chat://?action=person&host=people.example&pubkey=02abc" ∧
  "02abc" = "02abc".
Proof.
  split; [reflexivity|].
  apply (makeQR_injective "people.example"). reflexivity.
Defined.

Lemma userImg_never_empty_witness :
  UserInfo.userImg (Some alice) = "https://img.example/alice.png" ∧
  UserInfo.userImg None = UserInfo.defaultPic.
Proof.
  split.
  - destruct (userImg_never_empty (Some alice)) as (_ & Himg & _).
    apply (Himg alice); [reflexivity | reflexivity | discriminate].
  - destruct (userImg_never_empty None) as (_ & _ & Hdefault).
    apply Hdefault. left. reflexivity.
Defined.

(** ** Where the spec says more than the code does *)

(** On C4.  The token is absent in both runs.  In the first a load is in
    flight when the user signs out, and the call leaves [loading] true;
    in the second the store is showing cards when the user signs out, and
    the call leaves the cards where they are. *)
Lemma precondition_failure_keeps_state_counterexample :
  let mid_load := run unreachable 0 loadWorkspaceBounties signed_out_mid_load in
  let showing :=
    run unreachable 0 loadWorkspaceBounties
      (set_uiStore_meInfo None showing_cards) in
  tribe_jwt <$> uiStore_meInfo signed_out_mid_load = None ∧
  tribe_jwt <$> uiStore_meInfo (set_uiStore_meInfo None showing_cards) = None ∧
  fetched mid_load = [] ∧
  fetched showing = [] ∧
  loading (this (final mid_load)) ≠ false ∧
  bountyCards (this (final showing)) ≠ [].
Proof. vm_compute. repeat split; discriminate. Qed.

(** On C5.  A load is in flight, so [loading] is true, when the user signs
    out; the next call of [loadWorkspaceBounties] fails the precondition
    check, returns before the [try], and leaves [loading] true. *)
Lemma loading_left_true_counterexample :
  let r := run unreachable 0 loadWorkspaceBounties signed_out_mid_load in
  settled r = Normal tt ∧ loading (this (final r)) ≠ false.
Proof. vm_compute. split; [reflexivity | discriminate]. Qed.

(** On C6.  The slot under the key holds text that is not JSON:
    [restoreFilterState] throws the [SyntaxError] of [JSON.parse], and so
    does the constructor that calls it. *)
Lemma restoreFilterState_throws_counterexample :
  sessionStorage corrupt_filter !! bountyFilterState = Some "not json" ∧
  restoreFilterState corrupt_filter = Throws JSON_text.SyntaxError ∧
  (constructor "ws1" corrupt_filter).1 = Throws JSON_text.SyntaxError.
Proof. vm_compute. repeat split. Qed.

(** On C9.  The store's first load, for [ws1], is still in flight when
    [switchWorkspace "ws2"] runs; when its response lands, the card of
    [ws1] is shown under [ws2]. *)
Lemma stale_cards_counterexample :
  awaited (advance loadWorkspaceBounties signed_in).2 =
    Some (GET (bountyCardsUrl "ws1") "token") ∧
  currentWorkspaceId (this overlapping_loads.1) = "ws2" ∧
  bountyCards (this overlapping_loads.1) = [with_pow card_b1 0] ∧
  overlapping_loads.2 = Settled (Normal tt).
Proof. vm_compute. repeat split. Qed.

End Examples.
